(** * Civic issue tracker: the store of [citizen_app.py] and its operations

    A shallow embedding of [CitizenAppBackend] (src/citizen_app.py).

    - The SQLite table [issues] is a list of rows in rowid order.  Every
      method is a function of the table; the two methods that write,
      [report_issue] and [vote_issue], return the new table next to their
      result.
    - What the methods take from outside is an argument: the readings of the
      clock ([datetime.now()]) and the order in which the process iterates
      over the set [CATEGORIES].
    - A [str] is a [string]; its characters stand for the code points below
      256.  An [int] is a [Z].  A [float] is a binary64 value of
      [SpecFloat]; the operations on floats that the methods reach ([AVG]
      of SQLite, [round], [repr], [float()]) are written out on it.
    - [json.dumps] and [json.loads] are a printer and a scanner of text.

    The first part has the definitions, the second the properties. *)

From Stdlib Require Import ZArith List String Ascii Bool Lia.
From Stdlib Require Import Permutation Sorted SpecFloat.
From Stdlib Require Import Decimal DecimalFacts DecimalString DecimalN.
Import ListNotations.

Local Open Scope string_scope.
Local Open Scope Z_scope.

(** ** Data model *)

(** A row of the table [issues] (the columns of [_init_db], the fields of the
    dataclass [Issue]).  [votes] is the integer column, read back as a
    Python [int]; it is only ever changed by adding 1, and the 64 bits of
    the column are not modelled. *)
Record Issue : Type := mkIssue {
  id : string;
  title : string;
  category : string;
  location : string;
  status : string;
  votes : Z;
  created_at : string
}.

(** The table, in rowid (insertion) order. *)
Definition table : Type := list Issue.

(** What [datetime.now()] returned: the text of [.timestamp()] as an f-string
    renders it, and [.isoformat()]. *)
Record datetime : Type := mkDatetime {
  timestamp : string;
  isoformat : string
}.

(** The exceptions the methods can raise. *)
Inductive exn : Type :=
| ValueError (msg : string)
| IntegrityError (msg : string).

Inductive result (A : Type) : Type :=
| Ok (a : A)
| Raise (e : exn).
Arguments Ok {A} a.
Arguments Raise {A} e.

(** [CATEGORIES], the class attribute (a set literal). *)
Definition CATEGORIES : list string :=
  ["infrastructure"; "safety"; "environment"; "community"; "transit"].

(** [category in self.CATEGORIES] *)
Definition in_CATEGORIES (category : string) : bool :=
  existsb (String.eqb category) CATEGORIES.

(** [repr] of a [str] without quote, backslash or non-printable character
    (it is applied to the category names only). *)
Definition str_repr (s : string) : string := "'" ++ s ++ "'".

(** [repr] of a non-empty set whose iteration order is [order]. *)
Definition set_repr (order : list string) : string :=
  "{" ++ String.concat ", " (map str_repr order) ++ "}".

(** [s] occurs in [t]. *)
Definition occurs_in (s t : string) : Prop :=
  exists pre post, t = pre ++ s ++ post.

(** ** Python numbers *)

(** A Python [float] is a binary64 value. *)
Definition prec : Z := 53.
Definition emax : Z := 1024.

(** A Python number: an [int] or a [float]. *)
Inductive pynum : Type :=
| PyInt (n : Z)
| PyFloat (x : spec_float).

(** C's [(double) z]: the double nearest to the integer [z]. *)
Definition double_of_Z (z : Z) : spec_float :=
  binary_normalize prec emax z 0 false.

(** [strtod] on the decimal [(-1)^s * M * 10^E] ([0 <= M]): the double
    nearest to it, the one with the even mantissa at a tie. *)
Definition strtod (s : bool) (M E : Z) : spec_float :=
  match M with
  | Zpos m =>
      if 0 <=? E then binary_round prec emax s (m * Z.to_pos (10 ^ E)) 0
      else SFdiv prec emax (S754_finite s m 0) (S754_finite false (Z.to_pos (10 ^ (- E))) 0)
  | _ => S754_zero s
  end.

(** The integer nearest to [num / den] (for [0 < den]), the even one at a
    tie. *)
Definition round_half_even (num den : Z) : Z :=
  let q := num / den in
  match 2 * (num mod den) ?= den with
  | Lt => q
  | Eq => if Z.even q then q else q + 1
  | Gt => q + 1
  end.

(** [float.__round__] with [0 <= ndigits]: the exact value of [x] is rounded
    to a decimal with [ndigits] places (ties to even), and that decimal is
    converted back by [strtod]. *)
Definition float_round (x : spec_float) (ndigits : Z) : spec_float :=
  match x with
  | S754_finite s m e =>
      if 323 <? ndigits then x
      else
        let k := if 0 <=? e then Zpos m * 2 ^ e * 10 ^ ndigits
                 else round_half_even (Zpos m * 10 ^ ndigits) (2 ^ (- e)) in
        strtod s k (- ndigits)
  | _ => x
  end.

(** [round(v, ndigits)] with [0 <= ndigits]; an [int] is returned as it is. *)
Definition py_round (v : pynum) (ndigits : Z) : pynum :=
  match v with
  | PyInt n => PyInt n
  | PyFloat x => PyFloat (float_round x ndigits)
  end.

Definition is_zero (x : spec_float) : bool :=
  match x with
  | S754_zero _ => true
  | _ => false
  end.

(** [v or 0] for [v] a [float] or [None]: [None] and a zero are false. *)
Definition or_zero (v : option spec_float) : pynum :=
  match v with
  | Some x => if is_zero x then PyInt 0 else PyFloat x
  | None => PyInt 0
  end.

(** ** Python dicts *)

(** A [dict] with [str] keys, in insertion order. *)
Definition dict (A : Type) : Type := list (string * A).

(** [d[k] = v]: a key that is present keeps its place. *)
Fixpoint dict_set {A : Type} (d : dict A) (k : string) (v : A) : dict A :=
  match d with
  | [] => [(k, v)]
  | (k', v') :: d' =>
      if String.eqb k' k then (k', v) :: d' else (k', v') :: dict_set d' k v
  end.

(** [d.get(k)] *)
Definition dict_get {A : Type} (k : string) (d : dict A) : option A :=
  option_map snd (find (fun kv => String.eqb (fst kv) k) d).

(** ** Text of numbers *)

Definition dquote : ascii := "034"%char.
Definition newline : ascii := "010"%char.

Definition is_digit (c : ascii) : bool :=
  (48 <=? nat_of_ascii c)%nat && (nat_of_ascii c <=? 57)%nat.

(** The longest prefix of digits, and what follows it. *)
Fixpoint span_digits (s : string) : string * string :=
  match s with
  | String c s' =>
      if is_digit c then let (ds, r) := span_digits s' in (String c ds, r)
      else ("", s)
  | "" => ("", "")
  end.

(** The number that a string of digits denotes. *)
Definition digits_val (ds : string) : Z :=
  match NilEmpty.uint_of_string ds with
  | Some d => Z.of_N (N.of_uint d)
  | None => 0
  end.

(** The decimal digits of a natural number. *)
Definition digits_of (n : Z) : string :=
  NilEmpty.string_of_uint (N.to_uint (Z.to_N n)).

(** [int.__repr__] *)
Definition int_repr (n : Z) : string :=
  if n <? 0 then "-" ++ digits_of (- n) else digits_of n.

Fixpoint zeros (n : nat) : string :=
  match n with
  | O => ""
  | S n' => String "0" (zeros n')
  end.

(** Without the zeros at the end of a string of digits, and how many they were. *)
Fixpoint strip_zeros (ds : string) : string * Z :=
  match ds with
  | String c ds' =>
      let (r, k) := strip_zeros ds' in
      match r with
      | "" => if Ascii.eqb c "0" then ("", k + 1) else (String c "", k)
      | _ => (String c r, k)
      end
  | "" => ("", 0)
  end.

Fixpoint take (n : nat) (s : string) : string :=
  match n, s with
  | S n', String c s' => String c (take n' s')
  | _, _ => ""
  end.

Fixpoint drop (n : nat) (s : string) : string :=
  match n, s with
  | S n', String c s' => drop n' s'
  | _, _ => s
  end.

(** The text of [float.__repr__] for the digits [D] ([0 < D]) and the
    decimal exponent [dexp], that is for the value [D * 10^dexp]: zeros at
    the end of the digits are dropped; with [decpt] the position of the
    decimal point, the exponent form is used when [decpt > 16] or
    [decpt <= -4]. *)
Definition format_repr (D dexp : Z) : string :=
  let (ds, k) := strip_zeros (digits_of D) in
  let n := Z.of_nat (String.length ds) in
  let decpt := n + k + dexp in
  if (16 <? decpt) || (decpt <=? -4) then
    let mant := match ds with
                | String c "" => String c ""
                | String c r => String c (String "." r)
                | "" => ""
                end in
    let x := decpt - 1 in
    let xs := digits_of (Z.abs x) in
    mant ++ "e" ++ (if x <? 0 then "-" else "+")
         ++ (if Z.abs x <? 10 then "0" else "") ++ xs
  else if decpt <=? 0 then
    "0." ++ zeros (Z.to_nat (- decpt)) ++ ds
  else if n <=? decpt then
    ds ++ zeros (Z.to_nat (decpt - n)) ++ ".0"
  else
    take (Z.to_nat decpt) ds ++ "." ++ drop (Z.to_nat decpt) ds.

(** [NUMBER_RE] of [json.scanner] has three groups: the integer (an optional
    minus sign, then either one 0 or a digit from 1 to 9 and any digits), an
    optional fraction (a point and one digit or more) and an optional
    exponent ([e] or [E], an optional sign, one digit or more).  A group
    that cannot be completed is left out. *)
Definition match_frac (s : string) : string * string :=
  match s with
  | String c r =>
      if Ascii.eqb c "." then
        match span_digits r with
        | ("", _) => ("", s)
        | (ds, r') => (String "." ds, r')
        end
      else ("", s)
  | "" => ("", s)
  end.

(** An optional sign. *)
Definition match_sign (s : string) : string * string :=
  match s with
  | String c r =>
      if Ascii.eqb c "-" || Ascii.eqb c "+" then (String c "", r) else ("", s)
  | "" => ("", s)
  end.

(** An optional minus sign. *)
Definition match_minus (s : string) : string * string :=
  match s with
  | String c r => if Ascii.eqb c "-" then ("-", r) else ("", s)
  | "" => ("", s)
  end.

Definition match_exp (s : string) : string * string :=
  match s with
  | String c r =>
      if Ascii.eqb c "e" || Ascii.eqb c "E" then
        let (sg, r1) := match_sign r in
        match span_digits r1 with
        | ("", _) => ("", s)
        | (ds, r') => (String c (sg ++ ds), r')
        end
      else ("", s)
  | "" => ("", s)
  end.

Definition match_integer (s : string) : option (string * string) :=
  let (sg, s1) := match_minus s in
  match s1 with
  | String c r =>
      if Ascii.eqb c "0" then Some (sg ++ "0", r)
      else if is_digit c then let (ds, r') := span_digits s1 in Some (sg ++ ds, r')
      else None
  | "" => None
  end.

Definition match_number (s : string) : option (string * string * string * string) :=
  match match_integer s with
  | Some (integer, r) =>
      let (frac, r1) := match_frac r in
      let (exp, r2) := match_exp r1 in
      Some (integer, frac, exp, r2)
  | None => None
  end.

(** [int(integer)] for the first group of [NUMBER_RE] *)
Definition parse_int (integer : string) : Z :=
  let (sg, ds) := match_minus integer in
  if String.eqb sg "" then digits_val ds else - digits_val ds.

(** [float(integer + frac + exp)] for the groups of [NUMBER_RE]: the
    decimal is read exactly and converted by [strtod]. *)
Definition parse_float (integer frac exp : string) : spec_float :=
  let (sg, ids) := match_minus integer in
  let fds := match frac with
             | String _ ds => ds
             | "" => ""
             end in
  let x := match exp with
           | String _ r =>
               let (xsg, xds) := match_sign r in
               if String.eqb xsg "-" then - digits_val xds else digits_val xds
           | "" => 0
           end in
  strtod (negb (String.eqb sg "")) (digits_val (ids ++ fds))
         (x - Z.of_nat (String.length fds)).

Definition spec_float_eqb (x y : spec_float) : bool :=
  match x, y with
  | S754_zero s, S754_zero s' => Bool.eqb s s'
  | S754_infinity s, S754_infinity s' => Bool.eqb s s'
  | S754_nan, S754_nan => true
  | S754_finite s m e, S754_finite s' m' e' => Bool.eqb s s' && Pos.eqb m m' && Z.eqb e e'
  | _, _ => false
  end.

(** The text [t] is a JSON number with a fraction or an exponent, and the
    scanner reads the float [x] from it. *)
Definition reads_back (x : spec_float) (t : string) : bool :=
  match match_number t with
  | Some (integer, frac, exp, "") =>
      negb (String.eqb frac "" && String.eqb exp "")
      && spec_float_eqb (parse_float integer frac exp) x
  | _ => false
  end.

(** ** [float.__repr__] *)

(** [10^k <= num / den] *)
Definition pow10_le (k num den : Z) : bool :=
  if 0 <=? k then den * 10 ^ k <=? num else den <=? num * 10 ^ (- k).

(** The position of the decimal point of [num / den]: the [k] with
    [10^(k-1) <= num / den < 10^k], searched upwards from [k]. *)
Fixpoint decpt_from (fuel : nat) (k num den : Z) : Z :=
  match fuel with
  | O => k
  | S fuel' => if pow10_le k num den then decpt_from fuel' (k + 1) num den else k
  end.

(** The shortest digits that read back as the float [x = m * 2^e] (sign
    apart), tried with [n] digits: of the two decimals with [n] digits next
    to [x], the one that reads back as [x]; the nearer one when both do, the
    even one at a tie.  The result is the text. *)
Definition repr_with (sign : string) (x : spec_float) (m : positive) (e : Z) (decpt : Z) (n : Z)
  : option string :=
  let p := n - decpt in
  let num := Zpos m * 2 ^ Z.max e 0 * 10 ^ Z.max p 0 in
  let den := 2 ^ Z.max (- e) 0 * 10 ^ Z.max (- p) 0 in
  let lo := num / den in
  let r := num mod den in
  let tlo := sign ++ format_repr lo (- p) in
  let thi := sign ++ format_repr (lo + 1) (- p) in
  let lo_ok := reads_back x tlo in
  let hi_ok := negb (r =? 0) && reads_back x thi in
  match lo_ok, hi_ok with
  | true, false => Some tlo
  | false, true => Some thi
  | true, true =>
      match 2 * r ?= den with
      | Lt => Some tlo
      | Gt => Some thi
      | Eq => if Z.even lo then Some tlo else Some thi
      end
  | false, false => None
  end.

Fixpoint repr_search (sign : string) (x : spec_float) (m : positive) (e : Z) (decpt : Z)
    (fuel : nat) (n : Z) : option string :=
  match fuel with
  | O => None
  | S fuel' =>
      match repr_with sign x m e decpt n with
      | Some t => Some t
      | None => repr_search sign x m e decpt fuel' (n + 1)
      end
  end.

(** The exact decimal value of the float [m * 2^e], in exponent form: an
    integer for [0 <= e], and [m * 5^(-e) * 10^e] for [e < 0]. *)
Definition exact_decimal (m : positive) (e : Z) : string :=
  if 0 <=? e then digits_of (Zpos m * 2 ^ e) ++ "e0"
  else digits_of (Zpos m * 5 ^ (- e)) ++ "e-" ++ digits_of (- e).

(** [float.__repr__] of a zero or a finite float: the shortest decimal that
    reads back as the float.  A binary64 value always has one of at most 17
    digits; the last case only makes the function total: should the search
    find none, the exact value is written. *)
Definition float_repr (x : spec_float) : string :=
  match x with
  | S754_zero s => if s then "-0.0" else "0.0"
  | S754_finite s m e =>
      let sign := if s then "-" else "" in
      let decpt := decpt_from 640 (-323) (Zpos m * 2 ^ Z.max e 0) (2 ^ Z.max (- e) 0) in
      match repr_search sign x m e decpt 17 1 with
      | Some t => t
      | None => sign ++ exact_decimal m e
      end
  | S754_infinity s => if s then "-inf" else "inf"
  | S754_nan => "nan"
  end.

(** ** JSON *)

(** The Python values that [json] writes and reads: [None], [bool], [int],
    [float], [str], [list], and [dict] with [str] keys. *)
#[local] Unset Elimination Schemes.
Inductive json : Type :=
| JNull
| JBool (b : bool)
| JInt (n : Z)
| JFloat (x : spec_float)
| JString (s : string)
| JArray (l : list json)
| JObject (d : dict json).
#[local] Set Elimination Schemes.

(** Induction on values, with the values inside a list or a dict. *)

Section JsonInd.
Variable P : json -> Prop.
Hypothesis Hnull : P JNull.
Hypothesis Hbool : forall b, P (JBool b).
Hypothesis Hint : forall n, P (JInt n).
Hypothesis Hfloat : forall x, P (JFloat x).
Hypothesis Hstring : forall s, P (JString s).
Hypothesis Harray : forall l, Forall P l -> P (JArray l).
Hypothesis Hobject : forall d, Forall (fun kv => P (snd kv)) d -> P (JObject d).

Fixpoint json_ind (v : json) : P v :=
  match v with
  | JNull => Hnull
  | JBool b => Hbool b
  | JInt n => Hint n
  | JFloat x => Hfloat x
  | JString s => Hstring s
  | JArray l =>
      Harray l ((fix all (l : list json) : Forall P l :=
                   match l with
                   | [] => Forall_nil P
                   | v :: l' => Forall_cons v (json_ind v) (all l')
                   end) l)
  | JObject d =>
      Hobject d ((fix all (d : list (string * json)) : Forall (fun kv => P (snd kv)) d :=
                    match d with
                    | [] => Forall_nil _
                    | kv :: d' => Forall_cons kv (json_ind (snd kv)) (all d')
                    end) d)
  end.
End JsonInd.

(** *** [json.dumps] *)

Definition hex_digit (n : nat) : ascii :=
  ascii_of_nat (if (n <? 10)%nat then 48 + n else 87 + n).

(** [ESCAPE_ASCII] and [ESCAPE_DCT]: what a character of a string is
    written as ([ensure_ascii] is on). *)
Definition escape_char (c : ascii) : string :=
  let n := nat_of_ascii c in
  if Ascii.eqb c dquote then String "\" (String dquote "")
  else if Ascii.eqb c "\" then "\\"
  else if Ascii.eqb c newline then "\n"
  else if Ascii.eqb c "013" then "\r"
  else if Ascii.eqb c "009" then "\t"
  else if Ascii.eqb c "008" then "\b"
  else if Ascii.eqb c "012" then "\f"
  else if (32 <=? n)%nat && (n <=? 126)%nat then String c ""
  else "\u00" ++ String (hex_digit (n / 16)) (String (hex_digit (n mod 16)) "").

Fixpoint escape (s : string) : string :=
  match s with
  | String c s' => escape_char c ++ escape s'
  | "" => ""
  end.

(** [py_encode_basestring_ascii] *)
Definition encode_string (s : string) : string :=
  String dquote (escape s ++ String dquote "").

(** [floatstr] *)
Definition floatstr (x : spec_float) : string :=
  match x with
  | S754_nan => "NaN"
  | S754_infinity false => "Infinity"
  | S754_infinity true => "-Infinity"
  | _ => float_repr x
  end.

(** A new line and the indentation of [level] steps of [indent] spaces. *)
Fixpoint spaces (n : nat) : string :=
  match n with
  | O => ""
  | S n' => String " " (spaces n')
  end.

Definition newline_indent (indent level : nat) : string :=
  String newline (spaces (indent * level)).

(** [JSONEncoder(indent=indent).encode], at nesting depth [level]. *)
Fixpoint encode (indent level : nat) (v : json) : string :=
  match v with
  | JNull => "null"
  | JBool true => "true"
  | JBool false => "false"
  | JInt n => int_repr n
  | JFloat x => floatstr x
  | JString s => encode_string s
  | JArray [] => "[]"
  | JArray l =>
      "[" ++ newline_indent indent (S level)
          ++ String.concat ("," ++ newline_indent indent (S level))
                           (map (encode indent (S level)) l)
          ++ newline_indent indent level ++ "]"
  | JObject [] => "{}"
  | JObject d =>
      "{" ++ newline_indent indent (S level)
          ++ String.concat ("," ++ newline_indent indent (S level))
               (map (fun kv => encode_string (fst kv) ++ ": " ++ encode indent (S level) (snd kv)) d)
          ++ newline_indent indent level ++ "}"
  end.

(** [json.dumps(obj, indent=indent)] *)
Definition json_dumps (obj : json) (indent : nat) : string := encode indent 0 obj.

(** *** [json.loads] *)

Definition is_ws (c : ascii) : bool :=
  Ascii.eqb c " " || Ascii.eqb c "009" || Ascii.eqb c newline || Ascii.eqb c "013".

(** [WHITESPACE.match]: past the white space. *)
Fixpoint skip_ws (s : string) : string :=
  match s with
  | String c s' => if is_ws c then skip_ws s' else s
  | "" => ""
  end.

Definition hex_val (c : ascii) : option nat :=
  let n := nat_of_ascii c in
  if (48 <=? n)%nat && (n <=? 57)%nat then Some (n - 48)%nat
  else if (97 <=? n)%nat && (n <=? 102)%nat then Some (n - 87)%nat
  else if (65 <=? n)%nat && (n <=? 70)%nat then Some (n - 55)%nat
  else None.

(** [BACKSLASH]: the character that a one-letter escape stands for. *)
Definition unescape (c : ascii) : option ascii :=
  if Ascii.eqb c dquote then Some dquote
  else if Ascii.eqb c "\" then Some "\"%char
  else if Ascii.eqb c "/" then Some "/"%char
  else if Ascii.eqb c "b" then Some "008"%char
  else if Ascii.eqb c "f" then Some "012"%char
  else if Ascii.eqb c "n" then Some newline
  else if Ascii.eqb c "r" then Some "013"%char
  else if Ascii.eqb c "t" then Some "009"%char
  else None.

Definition cons_fst (c : ascii) (r : option (string * string)) : option (string * string) :=
  match r with
  | Some (s, rest) => Some (String c s, rest)
  | None => None
  end.

(** [scanstring], from behind the opening quote: the string and the text
    behind the closing quote.  A control character is refused ([strict]);
    an escape [\uXXXX] for a code point from 256 on is outside the strings
    of this model and is refused too. *)
Fixpoint scanstring (s : string) : option (string * string) :=
  match s with
  | String c s' =>
      if Ascii.eqb c dquote then Some ("", s')
      else if Ascii.eqb c "\" then
        match s' with
        | String e s'' =>
            if Ascii.eqb e "u" then
              match s'' with
              | String h1 (String h2 (String h3 (String h4 r))) =>
                  match hex_val h1, hex_val h2, hex_val h3, hex_val h4 with
                  | Some a, Some b, Some c', Some d =>
                      if ((a =? 0) && (b =? 0))%nat
                      then cons_fst (ascii_of_nat (16 * c' + d)) (scanstring r)
                      else None
                  | _, _, _, _ => None
                  end
              | _ => None
              end
            else
              match unescape e with
              | Some a => cons_fst a (scanstring s'')
              | None => None
              end
        | "" => None
        end
      else if (nat_of_ascii c <? 32)%nat then None
      else cons_fst c (scanstring s')
  | "" => None
  end.

(** [dict(pairs)] *)
Definition dict_of_pairs {A : Type} (pairs : list (string * A)) : dict A :=
  fold_left (fun d kv => dict_set d (fst kv) (snd kv)) pairs [].

(** [s.startswith(p)], and [s] behind [p] *)
Fixpoint strip_prefix (p s : string) : option string :=
  match p, s with
  | "", _ => Some s
  | String a p', String b s' => if Ascii.eqb a b then strip_prefix p' s' else None
  | _, "" => None
  end.

(** The last cases of [scan_once]: the literals and the numbers. *)
Definition scan_scalar (s : string) : option (json * string) :=
  match strip_prefix "null" s, strip_prefix "true" s, strip_prefix "false" s with
  | Some r, _, _ => Some (JNull, r)
  | _, Some r, _ => Some (JBool true, r)
  | _, _, Some r => Some (JBool false, r)
  | None, None, None =>
      match match_number s with
      | Some (integer, frac, exp, r) =>
          if String.eqb frac "" && String.eqb exp ""
          then Some (JInt (parse_int integer), r)
          else Some (JFloat (parse_float integer frac exp), r)
      | None =>
          match strip_prefix "NaN" s, strip_prefix "Infinity" s,
                strip_prefix "-Infinity" s with
          | Some r, _, _ => Some (JFloat S754_nan, r)
          | _, Some r, _ => Some (JFloat (S754_infinity false), r)
          | _, _, Some r => Some (JFloat (S754_infinity true), r)
          | None, None, None => None
          end
      end
  end.

(** [scan_once], [JSONArray] and [JSONObject].  Each returns the value and
    the text behind it.  [fuel] bounds the number of nested calls. *)
Fixpoint scan_once (fuel : nat) (s : string) : option (json * string) :=
  match fuel with
  | O => None
  | S fuel' =>
      match s with
      | "" => None
      | String c s' =>
          if Ascii.eqb c dquote then
            match scanstring s' with
            | Some (str, r) => Some (JString str, r)
            | None => None
            end
          else if Ascii.eqb c "{" then
            match skip_ws s' with
            | String c1 r1 =>
                if Ascii.eqb c1 "}" then Some (JObject [], r1)
                else if Ascii.eqb c1 dquote then
                  match object_pairs fuel' r1 with
                  | Some (pairs, r) => Some (JObject (dict_of_pairs pairs), r)
                  | None => None
                  end
                else None
            | "" => None
            end
          else if Ascii.eqb c "[" then
            match skip_ws s' with
            | String c1 r1 =>
                if Ascii.eqb c1 "]" then Some (JArray [], r1)
                else
                  match array_values fuel' (String c1 r1) with
                  | Some (values, r) => Some (JArray values, r)
                  | None => None
                  end
            | "" => None
            end
          else scan_scalar s
      end
  end

(** The loop of [JSONArray], from the first character of a value. *)
with array_values (fuel : nat) (s : string) : option (list json * string) :=
  match fuel with
  | O => None
  | S fuel' =>
      match scan_once fuel' s with
      | Some (value, r) =>
          match skip_ws r with
          | String c r1 =>
              if Ascii.eqb c "]" then Some ([value], r1)
              else if Ascii.eqb c "," then
                match array_values fuel' (skip_ws r1) with
                | Some (values, r2) => Some (value :: values, r2)
                | None => None
                end
              else None
          | "" => None
          end
      | None => None
      end
  end

(** The loop of [JSONObject], from behind the opening quote of a key. *)
with object_pairs (fuel : nat) (s : string) : option (list (string * json) * string) :=
  match fuel with
  | O => None
  | S fuel' =>
      match scanstring s with
      | Some (key, r) =>
          match skip_ws r with
          | String c r1 =>
              if Ascii.eqb c ":" then
                match scan_once fuel' (skip_ws r1) with
                | Some (value, r2) =>
                    match skip_ws r2 with
                    | String c2 r3 =>
                        if Ascii.eqb c2 "}" then Some ([(key, value)], r3)
                        else if Ascii.eqb c2 "," then
                          match skip_ws r3 with
                          | String c4 r4 =>
                              if Ascii.eqb c4 dquote then
                                match object_pairs fuel' r4 with
                                | Some (pairs, r5) => Some ((key, value) :: pairs, r5)
                                | None => None
                                end
                              else None
                          | "" => None
                          end
                        else None
                    | "" => None
                    end
                | None => None
                end
              else None
          | "" => None
          end
      | None => None
      end
  end.

(** [json.loads]: one value, with white space before and behind it and
    nothing else.  The length of the text bounds the nesting of the calls
    (for the texts that [json.dumps] writes this is proved below). *)
Definition json_loads (s : string) : option json :=
  match scan_once (String.length s) (skip_ws s) with
  | Some (obj, r) => if String.eqb (skip_ws r) "" then Some obj else None
  | None => None
  end.

(** *** Values that are read back as they are *)

(** The scanner reads the float back from its text: for a zero and a finite
    float, from its [repr]; an infinity and a NaN are written and read as
    the names that stand for them. *)
Definition float_ok (x : spec_float) : bool :=
  match x with
  | S754_zero _ | S754_finite _ _ _ => reads_back x (float_repr x)
  | S754_infinity _ | S754_nan => true
  end.

Fixpoint distinct (l : list string) : bool :=
  match l with
  | [] => true
  | k :: l' => negb (existsb (String.eqb k) l') && distinct l'
  end.

(** The floats of the value are [float_ok], and no dict has a key twice
    (as in every Python dict). *)
Fixpoint json_ok (v : json) : bool :=
  match v with
  | JFloat x => float_ok x
  | JArray l => forallb json_ok l
  | JObject d => distinct (map fst d) && forallb (fun kv => json_ok (snd kv)) d
  | _ => true
  end.

Definition pynum_ok (v : pynum) : bool :=
  match v with
  | PyInt _ => true
  | PyFloat x => float_ok x
  end.

(** *** Notions for the proofs about the scanner *)

(** [s] is empty or starts with a character that is not in [bad]. *)
Definition starts_outside (bad : ascii -> bool) (s : string) : Prop :=
  match s with
  | String c _ => bad c = false
  | "" => True
  end.

Definition number_char (c : ascii) : bool :=
  is_digit c || Ascii.eqb c "." || Ascii.eqb c "e" || Ascii.eqb c "E"
  || Ascii.eqb c "+" || Ascii.eqb c "-".

(** What [encode] writes for a list and a dict that are not empty. *)
Definition item_separator (indent level : nat) : string :=
  "," ++ newline_indent indent level.

Definition encode_pair (indent level : nat) (kv : string * json) : string :=
  encode_string (fst kv) ++ ": " ++ encode indent level (snd kv).

(** The statement proved by induction on the value: with enough fuel,
    [scan_once] reads the value back from its text and stops behind it. *)
Definition reads_encoded (v : json) : Prop :=
  forall (indent level fuel : nat) (rest : string),
    (String.length (encode indent level v) <= fuel)%nat ->
    starts_outside number_char rest ->
    scan_once fuel (encode indent level v ++ rest) = Some (v, rest).

(** The text behind the first character. *)
Definition tail_of (s : string) : string :=
  match s with
  | String _ r => r
  | "" => ""
  end.

(** ** SQL statements on the table *)

(** [INSERT INTO issues ... VALUES (...)]: the primary key [id] refuses a
    row whose id is already in the table. *)
Definition sql_insert (row : Issue) (db : table) : option table :=
  if existsb (fun r => String.eqb (id r) (id row)) db then None
  else Some (db ++ [row])%list.

Definition set_votes (r : Issue) (v : Z) : Issue :=
  mkIssue (id r) (title r) (category r) (location r) (status r) v (created_at r).

(** [UPDATE issues SET votes = votes + 1 WHERE id = ?] *)
Definition sql_update_votes (issue_id : string) (db : table) : table :=
  map (fun r => if String.eqb (id r) issue_id then set_votes r (votes r + 1) else r) db.

(** [SELECT votes FROM issues WHERE id = ?] followed by [fetchone()] *)
Definition sql_select_votes (issue_id : string) (db : table) : option Z :=
  option_map votes (find (fun r => String.eqb (id r) issue_id) db).

(** [WHERE category = ?] *)
Definition sql_where_category (c : string) (db : table) : list Issue :=
  filter (fun r => String.eqb (category r) c) db.

(** [SELECT COUNT( * ) FROM issues] *)
Definition sql_count (rows : list Issue) : Z := Z.of_nat (List.length rows).

(** [SELECT AVG(votes) FROM issues]: [NULL] when there is no row, else the
    sum of the column, converted to a double, divided by the number of rows
    (the sum is exact below 2^53 whichever way SQLite accumulates it). *)
Definition sql_avg_votes (db : table) : option spec_float :=
  match db with
  | [] => None
  | _ => Some (SFdiv prec emax (double_of_Z (fold_right Z.add 0 (map votes db)))
                              (double_of_Z (sql_count db)))
  end.

(** [ORDER BY]: [before a b] says that row [a] may precede row [b].  The
    sort keeps rows that tie in rowid order. *)
Section OrderBy.
Variable before : Issue -> Issue -> bool.

Fixpoint insert_row (a : Issue) (l : list Issue) : list Issue :=
  match l with
  | [] => [a]
  | b :: l' => if before a b then a :: l else b :: insert_row a l'
  end.

Definition sql_order_by (l : list Issue) : list Issue :=
  fold_right insert_row [] l.
End OrderBy.

(** [ORDER BY votes DESC, created_at DESC]; text compares code point by
    code point. *)
Definition votes_desc_created_desc (a b : Issue) : bool :=
  (votes b <? votes a) || ((votes a =? votes b) && String.leb (created_at b) (created_at a)).

(** [ORDER BY created_at DESC] *)
Definition created_desc (a b : Issue) : bool :=
  String.leb (created_at b) (created_at a).

(** ** The methods of [CitizenAppBackend] *)

(** [Issue(id=..., title=..., category=..., location=...)]: [status] and
    [votes] take their defaults and [created_at] reads the clock. *)
Definition Issue_new (now : datetime) (issue_id title category location : string) : Issue :=
  mkIssue issue_id title category location "open" 0 (isoformat now).

Section Backend.
(** The order in which this process iterates over the set [CATEGORIES]. *)
Variable iter_order : list string.

(** [report_issue]; [now1] and [now2] are the two readings of the clock, for
    the id and for [created_at]. *)
Definition report_issue (now1 now2 : datetime) (title category location : string)
    (db : table) : result string * table :=
  if negb (in_CATEGORIES category) then
    (Raise (ValueError ("Invalid category. Must be one of: " ++ set_repr iter_order)), db)
  else
    let issue_id := "issue_" ++ timestamp now1 in
    let issue := Issue_new now2 issue_id title category location in
    match sql_insert issue db with
    | Some db' => (Ok issue_id, db')
    | None => (Raise (IntegrityError "UNIQUE constraint failed: issues.id"), db)
    end.

(** [vote_issue] *)
Definition vote_issue (issue_id : string) (db : table) : Z * table :=
  let db' := sql_update_votes issue_id db in
  let result := sql_select_votes issue_id db' in
  (match result with Some v => v | None => 0 end, db').

(** The truth value of an [Optional[str]]. *)
Definition truthy (category : option string) : bool :=
  match category with
  | None => false
  | Some c => negb (String.eqb c "")
  end.

(** [get_issues] *)
Definition get_issues (category : option string) (sort_by : string) (db : table) : list Issue :=
  let rows :=
    match category with
    | Some c => if truthy category then sql_where_category c db else db
    | None => db
    end in
  if String.eqb sort_by "votes" then sql_order_by votes_desc_created_desc rows
  else if String.eqb sort_by "recent" then sql_order_by created_desc rows
  else rows.

(** The dict that [get_stats] returns. *)
Record Stats : Type := mkStats {
  total_issues : Z;
  average_votes : pynum;
  by_category : dict Z
}.

(** [get_stats] *)
Definition get_stats (db : table) : Stats :=
  let total := sql_count db in
  let avg_votes := or_zero (sql_avg_votes db) in
  let by_category :=
    fold_left (fun d cat => dict_set d cat (sql_count (sql_where_category cat db)))
              iter_order [] in
  mkStats total (py_round avg_votes 2) by_category.

(** [dict(row)] for a row of [issues]: the columns in the order of the
    table. *)
Definition issue_json (r : Issue) : json :=
  JObject [("id", JString (id r)); ("title", JString (title r));
           ("category", JString (category r)); ("location", JString (location r));
           ("status", JString (status r)); ("votes", JInt (votes r));
           ("created_at", JString (created_at r))].

Definition pynum_json (v : pynum) : json :=
  match v with
  | PyInt n => JInt n
  | PyFloat x => JFloat x
  end.

(** The dict of [get_stats] as a value. *)
Definition stats_json (st : Stats) : json :=
  JObject [("total_issues", JInt (total_issues st));
           ("average_votes", pynum_json (average_votes st));
           ("by_category", JObject (map (fun kv => (fst kv, JInt (snd kv))) (by_category st)))].

(** [export_json] *)
Definition export_json (db : table) : string :=
  let issues := get_issues None "recent" db in
  let stats := get_stats db in
  let export_data :=
    JObject [("statistics", stats_json stats); ("issues", JArray (map issue_json issues))] in
  json_dumps export_data 2.
End Backend.

(** ** Runs of the backend *)

(** A call of one of the public methods, with its arguments (and, for
    [report_issue], the two readings of the clock it makes). *)
Inductive call : Type :=
| Report (now1 now2 : datetime) (title category location : string)
| Vote (issue_id : string)
| GetIssues (category : option string) (sort_by : string)
| GetStats
| ExportJson.

(** The table after a call.  [get_issues], [get_stats] and [export_json]
    only run [SELECT] statements. *)
Definition table_after (iter_order : list string) (c : call) (db : table) : table :=
  match c with
  | Report now1 now2 title category location =>
      snd (report_issue iter_order now1 now2 title category location db)
  | Vote issue_id => snd (vote_issue issue_id db)
  | GetIssues _ _ | GetStats | ExportJson => db
  end.

(** The table after a sequence of calls on the empty table that [_init_db]
    creates. *)
Definition run (iter_order : list string) (calls : list call) : table :=
  fold_left (fun db c => table_after iter_order c db) calls [].

(** ** Notions of the specification *)

(** The float [r] is the float [x] rounded to [n] decimal places: for a
    finite [x = (-1)^s * m * 2^e] it is the double nearest to a decimal
    [(-1)^s * k / 10^n] whose numerator [k] is an integer nearest to
    [m * 2^e * 10^n] (at most one half away from it); a zero, an infinity
    and a NaN round to themselves. *)
Definition rounded_to_places (n : Z) (x r : spec_float) : Prop :=
  match x with
  | S754_finite s m e =>
      exists k : Z,
        0 <= k /\ r = strtod s k (- n) /\
        2 * Z.abs (Zpos m * 10 ^ n * 2 ^ Z.max e 0 - k * 2 ^ Z.max (- e) 0)
        <= 2 ^ Z.max (- e) 0
  | _ => r = x
  end.

(** Row [a] may stand before row [b] in a list that is non-increasing in
    votes and, among equal votes, non-increasing in [created_at]. *)
Definition votes_then_recent (a b : Issue) : Prop :=
  votes b <= votes a /\
  (votes a = votes b -> String.leb (created_at b) (created_at a) = true).

(** ** Sample rows *)

Definition pothole : Issue :=
  mkIssue "issue_1700000000.25" "Pothole on Main St" "infrastructure" "44.97,-93.26"
          "open" 3 "2023-11-14T16:13:20.250000".

Definition streetlight : Issue :=
  mkIssue "issue_1700000100.5" "Streetlight out" "safety" "44.98,-93.27"
          "open" 0 "2023-11-14T16:15:00.500000".

(** Two readings of the clock, a few microseconds apart. *)
Definition quarter_past : datetime :=
  mkDatetime "1700000100.5" "2023-11-14T16:15:00.500000".

Definition quarter_past_later : datetime :=
  mkDatetime "1700000100.500021" "2023-11-14T16:15:00.500021".

(** ** The command line *)

(** The database file before the backend is constructed: without the table
    [issues], or with it. *)
Definition database : Type := option table.

(** [_init_db]: [CREATE TABLE IF NOT EXISTS issues] makes the empty table
    when there is none and leaves a table that is there as it is. *)
Definition _init_db (file : database) : table :=
  match file with
  | Some db => db
  | None => []
  end.

(** The format [:{width}s]: the string, filled with spaces on the right. *)
Definition format_s (width : nat) (s : string) : string :=
  s ++ spaces (width - String.length s).

(** The format [:{width}d]: the integer, filled with spaces on the left. *)
Definition format_d (width : nat) (n : Z) : string :=
  spaces (width - String.length (int_repr n)) ++ int_repr n.

(** [str(v)] for a number. *)
Definition pynum_str (v : pynum) : string :=
  match v with
  | PyInt n => int_repr n
  | PyFloat x => float_repr x
  end.

(** A call of [print].  The line of the command [report] starts with the
    check mark U+2713, which is not a character of the strings here: it is
    a call of its own, with the text behind the check mark. *)
Inductive printed : Type :=
| Print (s : string)
| PrintCheckMark (s : string).

(** The usage text. *)
Definition usage : list printed :=
  [Print "Usage:";
   Print ("  python citizen_app.py report "
          ++ String dquote ("Title" ++ String dquote (" category "
          ++ String dquote ("lat,lon" ++ String dquote ""))));
   Print "  python citizen_app.py list";
   Print "  python citizen_app.py stats"].

(** The line that the command [list] prints for an issue. *)
Definition issue_line (r : Issue) : string :=
  "  [" ++ format_s 12 (category r) ++ "] " ++ format_s 40 (take 40 (title r))
        ++ " | Votes: " ++ format_d 3 (votes r).

(** The line that the command [stats] prints for a category. *)
Definition category_line (kv : string * Z) : string :=
  "    " ++ format_s 15 (fst kv) ++ ": " ++ int_repr (snd kv).

(** [main], for [sys.argv = argv] (the script comes first): what it prints
    or the exception that ends it, and the table that it leaves. *)
Definition main (iter_order : list string) (now1 now2 : datetime)
    (argv : list string) (file : database) : result (list printed) * table :=
  let db := _init_db file in
  if (List.length argv <? 2)%nat then (Ok usage, db)
  else
    let command := nth 1 argv "" in
    if String.eqb command "report" && (5 <=? List.length argv)%nat then
      let title := nth 2 argv "" in
      let category := nth 3 argv "" in
      let location := nth 4 argv "" in
      match report_issue iter_order now1 now2 title category location db with
      | (Ok issue_id, db') => (Ok [PrintCheckMark (" Issue reported: " ++ issue_id)], db')
      | (Raise e, db') => (Raise e, db')
      end
    else if String.eqb command "list" then
      let issues := get_issues None "votes" db in
      (Ok (Print (String newline ("Found " ++ int_repr (Z.of_nat (List.length issues))
                                  ++ " issues:" ++ String newline ""))
           :: map (fun issue => Print (issue_line issue)) issues), db)
    else if String.eqb command "stats" then
      let stats := get_stats iter_order db in
      (Ok ([Print (String newline "Stats:");
            Print ("  Total Issues: " ++ int_repr (total_issues stats));
            Print ("  Avg Votes: " ++ pynum_str (average_votes stats));
            Print "  By Category:"]
           ++ map (fun kv => Print (category_line kv)) (by_category stats))%list, db)
    else (Ok [], db).

(** ** More notions for the properties *)

(** The table after [n] calls of [vote_issue] for the same id. *)
Definition vote_times (n : nat) (issue_id : string) (db : table) : table :=
  Nat.iter n (fun d => snd (vote_issue issue_id d)) db.

(** The sum of the values of a dict. *)
Definition dict_sum (d : dict Z) : Z := fold_right Z.add 0 (map snd d).

(** A row as [report_issue] makes them, whatever its votes. *)
Definition reported_row (r : Issue) : Prop :=
  In (category r) CATEGORIES /\ status r = "open" /\ exists t, id r = "issue_" ++ t.

(** Two rows that differ in their votes at most. *)
Definition same_but_votes (r r' : Issue) : Prop :=
  id r' = id r /\ title r' = title r /\ category r' = category r /\
  location r' = location r /\ status r' = status r /\ created_at r' = created_at r.

(** A float that is neither a zero nor a NaN. *)
Definition is_nonzero (x : spec_float) : bool :=
  match x with
  | S754_finite _ _ _ | S754_infinity _ => true
  | _ => false
  end.

(** * Properties *)

(** ** Strings *)

Lemma append_assoc (s t u : string) : (s ++ t) ++ u = s ++ (t ++ u).
Proof. induction s as [|c s IH]; simpl; [reflexivity | now rewrite IH]. Qed.

Lemma append_nil_r (s : string) : s ++ "" = s.
Proof. induction s as [|c s IH]; simpl; [reflexivity | now rewrite IH]. Qed.

Lemma compare_trans_lt (s t u : string) :
  String.compare s t = Lt -> String.compare t u = Lt -> String.compare s u = Lt.
Proof.
  revert t u. induction s as [|a s IH]; intros [|b t] [|c u]; simpl; try congruence.
  unfold Ascii.compare.
  destruct (N.compare_spec (N_of_ascii a) (N_of_ascii b)) as [Hab|Hab|Hab]; try discriminate;
    destruct (N.compare_spec (N_of_ascii b) (N_of_ascii c)) as [Hbc|Hbc|Hbc]; try discriminate;
    intros H1 H2.
  - rewrite Hab, Hbc, N.compare_refl. eauto.
  - rewrite Hab. now apply N.compare_lt_iff in Hbc as ->.
  - rewrite <- Hbc. now apply N.compare_lt_iff in Hab as ->.
  - assert (Hac : (N_of_ascii a < N_of_ascii c)%N) by lia.
    now apply N.compare_lt_iff in Hac as ->.
Qed.

Lemma leb_trans (s t u : string) :
  String.leb s t = true -> String.leb t u = true -> String.leb s u = true.
Proof.
  unfold String.leb.
  destruct (String.compare s t) eqn:Hst; try discriminate;
    destruct (String.compare t u) eqn:Htu; try discriminate; intros _ _.
  - apply String.compare_eq_iff in Hst, Htu. subst.
    now destruct (String.leb_total u u).
  - apply String.compare_eq_iff in Hst. subst. now rewrite Htu.
  - apply String.compare_eq_iff in Htu. subst. now rewrite Hst.
  - now rewrite (compare_trans_lt _ _ _ Hst Htu).
Qed.

(** ** [vote_issue] *)

Lemma select_votes_present (issue_id : string) (db : table) :
  In issue_id (map id db) -> exists v, sql_select_votes issue_id db = Some v.
Proof.
  unfold sql_select_votes. induction db as [|r db IH]; simpl; [tauto|].
  intros [Hr|Hin].
  - subst. rewrite String.eqb_refl. simpl. eauto.
  - destruct (String.eqb (id r) issue_id); simpl; eauto.
Qed.

Lemma select_votes_absent (issue_id : string) (db : table) :
  ~ In issue_id (map id db) -> sql_select_votes issue_id db = None.
Proof.
  unfold sql_select_votes. induction db as [|r db IH]; simpl; [reflexivity|].
  intros Hn. destruct (String.eqb_spec (id r) issue_id) as [He|He]; [tauto|].
  apply IH. tauto.
Qed.

Lemma select_votes_update (issue_id : string) (db : table) :
  sql_select_votes issue_id (sql_update_votes issue_id db)
  = option_map Z.succ (sql_select_votes issue_id db).
Proof.
  unfold sql_select_votes, sql_update_votes.
  induction db as [|r db IH]; simpl; [reflexivity|].
  destruct (String.eqb (id r) issue_id) eqn:He; simpl; rewrite He; simpl.
  - reflexivity.
  - exact IH.
Qed.

Lemma update_votes_absent (issue_id : string) (db : table) :
  ~ In issue_id (map id db) -> sql_update_votes issue_id db = db.
Proof.
  unfold sql_update_votes. induction db as [|r db IH]; simpl; [reflexivity|].
  intros Hn. destruct (String.eqb_spec (id r) issue_id) as [He|He]; [tauto|].
  f_equal. apply IH. tauto.
Qed.

Lemma update_votes_nth (issue_id : string) (db : table) (k : nat) (r : Issue) :
  nth_error db k = Some r ->
  nth_error (sql_update_votes issue_id db) k
  = Some (if String.eqb (id r) issue_id then set_votes r (votes r + 1) else r).
Proof.
  intros H. unfold sql_update_votes. rewrite nth_error_map, H. reflexivity.
Qed.

(** C1: when a row with id [issue_id] is in the table, [vote_issue] adds
    exactly 1 to the stored votes of the rows with that id, leaves every
    other row and field as it was, and returns the vote count that is
    stored after the update (the old count plus one). *)
Theorem vote_issue_post_increment (issue_id : string) (db : table) :
  In issue_id (map id db) ->
  let '(n, db') := vote_issue issue_id db in
  sql_select_votes issue_id db' = Some n /\
  sql_select_votes issue_id db = Some (n - 1) /\
  List.length db' = List.length db /\
  forall k r, nth_error db k = Some r ->
    nth_error db' k = Some (if String.eqb (id r) issue_id then set_votes r (votes r + 1) else r).
Proof.
  intros Hin. unfold vote_issue.
  destruct (select_votes_present _ _ Hin) as [v Hv].
  rewrite select_votes_update, Hv. simpl.
  repeat split.
  - f_equal. lia.
  - unfold sql_update_votes. apply length_map.
  - intros k r. apply update_votes_nth.
Qed.

Lemma vote_issue_post_increment_witness :
  vote_issue "issue_1700000000.25" [pothole; streetlight]
  = (4, [set_votes pothole 4; streetlight]) /\
  let '(n, db') := vote_issue "issue_1700000000.25" [pothole; streetlight] in
  sql_select_votes "issue_1700000000.25" db' = Some n /\
  sql_select_votes "issue_1700000000.25" [pothole; streetlight] = Some (n - 1) /\
  List.length db' = List.length [pothole; streetlight] /\
  forall k r, nth_error [pothole; streetlight] k = Some r ->
    nth_error db' k
    = Some (if String.eqb (id r) "issue_1700000000.25" then set_votes r (votes r + 1) else r).
Proof.
  split; [reflexivity|].
  apply (vote_issue_post_increment "issue_1700000000.25" [pothole; streetlight]).
  simpl. left. reflexivity.
Defined.

(** C4: voting on an id that no row has returns 0 (nothing is raised: the
    result is a plain integer) and leaves the table exactly as it was, so
    no row is created and none is changed. *)
Theorem vote_issue_missing_id (issue_id : string) (db : table) :
  ~ In issue_id (map id db) ->
  vote_issue issue_id db = (0, db).
Proof.
  intros Hn. unfold vote_issue.
  rewrite select_votes_update, (select_votes_absent _ _ Hn), (update_votes_absent _ _ Hn).
  reflexivity.
Qed.

Lemma vote_issue_missing_id_witness :
  vote_issue "issue_42.0" [pothole; streetlight] = (0, [pothole; streetlight]).
Proof.
  apply vote_issue_missing_id. simpl.
  intros [H|[H|[]]]; discriminate H.
Defined.

(** ** [report_issue] *)

Lemma in_CATEGORIES_spec (category : string) :
  reflect (In category CATEGORIES) (in_CATEGORIES category).
Proof.
  unfold in_CATEGORIES. apply iff_reflect. rewrite existsb_exists. split.
  - intros H. exists category. split; [exact H | apply String.eqb_refl].
  - intros [c [Hc He]]. apply String.eqb_eq in He. now subst.
Qed.

Lemma sql_insert_fresh (row : Issue) (db : table) :
  ~ In (id row) (map id db) -> sql_insert row db = Some (db ++ [row])%list.
Proof.
  intros Hn. unfold sql_insert.
  destruct (existsb _ db) eqn:He; [|reflexivity].
  apply existsb_exists in He as [r [Hr He]]. apply String.eqb_eq in He.
  exfalso. apply Hn. rewrite <- He. now apply in_map.
Qed.

Lemma sql_insert_duplicate (row : Issue) (db : table) :
  In (id row) (map id db) -> sql_insert row db = None.
Proof.
  intros Hin. unfold sql_insert.
  apply in_map_iff in Hin as [r [He Hr]].
  replace (existsb _ db) with true; [reflexivity|].
  symmetry. apply existsb_exists. exists r. split; [exact Hr|].
  now apply String.eqb_eq.
Qed.

Lemma occurs_in_app_l (s t pre : string) :
  occurs_in s t -> occurs_in s (pre ++ t).
Proof.
  intros [a [b ->]]. exists (pre ++ a), b. now rewrite !append_assoc.
Qed.

Lemma occurs_in_app_r (s t post : string) :
  occurs_in s t -> occurs_in s (t ++ post).
Proof.
  intros [a [b ->]]. exists a, (b ++ post). now rewrite !append_assoc.
Qed.

Lemma occurs_in_refl (s : string) : occurs_in s s.
Proof. exists "", "". simpl. now rewrite append_nil_r. Qed.

Lemma occurs_in_trans (s t u : string) :
  occurs_in s t -> occurs_in t u -> occurs_in s u.
Proof.
  intros Hst [a [b ->]]. now apply occurs_in_app_l, occurs_in_app_r.
Qed.

Lemma occurs_in_concat (sep c : string) (l : list string) :
  In c l -> occurs_in c (String.concat sep l).
Proof.
  induction l as [|x l IH]; [intros []|].
  intros [->|Hin].
  - destruct l as [|y l]; [apply occurs_in_refl|].
    apply occurs_in_app_r, occurs_in_refl.
  - destruct l as [|y l]; [destruct Hin|].
    change (String.concat sep (x :: y :: l)) with (x ++ sep ++ String.concat sep (y :: l)).
    now apply occurs_in_app_l, occurs_in_app_l, IH.
Qed.

Lemma occurs_in_set_repr (order : list string) (c : string) :
  In c order -> occurs_in c (set_repr order).
Proof.
  intros Hin. unfold set_repr.
  apply occurs_in_app_l, occurs_in_app_r.
  apply occurs_in_trans with (str_repr c).
  - unfold str_repr. apply occurs_in_app_l, occurs_in_app_r, occurs_in_refl.
  - apply occurs_in_concat. now apply in_map.
Qed.

(** C3: for a category outside the fixed set, [report_issue] raises
    [ValueError]; its message contains every name of the allowed set, and the
    table it leaves is the table it was given: nothing is persisted. *)
Theorem report_issue_invalid_category (iter_order : list string)
    (now1 now2 : datetime) (title category location : string) (db : table) :
  Permutation iter_order CATEGORIES ->
  ~ In category CATEGORIES ->
  exists msg,
    report_issue iter_order now1 now2 title category location db
    = (Raise (ValueError msg), db) /\
    forall c, In c CATEGORIES -> occurs_in c msg.
Proof.
  intros Hperm Hn. unfold report_issue.
  destruct (in_CATEGORIES_spec category) as [Hin|_]; [tauto|]. unfold negb.
  exists ("Invalid category. Must be one of: " ++ set_repr iter_order).
  split; [reflexivity|].
  intros c Hc. apply occurs_in_app_l, occurs_in_set_repr.
  apply Permutation_in with CATEGORIES; [now apply Permutation_sym | exact Hc].
Qed.

Lemma report_issue_invalid_category_witness :
  exists msg,
    report_issue ["safety"; "transit"; "community"; "infrastructure"; "environment"]
      (mkDatetime "1700000200.75" "2023-11-14T16:16:40.750000")
      (mkDatetime "1700000200.75" "2023-11-14T16:16:40.750011")
      "Loud music" "noise" "44.95,-93.20" [pothole]
    = (Raise (ValueError msg), [pothole]) /\
    forall c, In c CATEGORIES -> occurs_in c msg.
Proof.
  apply report_issue_invalid_category.
  - unfold CATEGORIES.
    apply Permutation_sym.
    apply (Permutation_cons_app ["safety"; "transit"; "community"] ["environment"] "infrastructure").
    apply perm_skip.
    apply (Permutation_cons_app ["transit"; "community"] nil "environment").
    simpl. apply (Permutation_cons_app ["transit"] nil "community").
    apply Permutation_refl.
  - unfold CATEGORIES. simpl. intros [H|[H|[H|[H|[H|[]]]]]]; discriminate H.
Defined.

(** C2, as the code has it: for a category of the fixed set, and when the id
    made from the clock, ["issue_" ++ timestamp], is not yet the id of a
    row, [report_issue] returns that id and appends exactly one row to the
    table, with the given title, category and location, status ["open"],
    votes 0 and [created_at] the clock's ISO text. *)
Theorem report_issue_fresh_id (iter_order : list string)
    (now1 now2 : datetime) (title category location : string) (db : table) :
  In category CATEGORIES ->
  ~ In ("issue_" ++ timestamp now1) (map id db) ->
  report_issue iter_order now1 now2 title category location db
  = (Ok ("issue_" ++ timestamp now1),
     (db ++ [mkIssue ("issue_" ++ timestamp now1) title category location
                     "open" 0 (isoformat now2)])%list).
Proof.
  intros Hc Hfresh. unfold report_issue.
  destruct (in_CATEGORIES_spec category) as [_|Hn]; [|tauto]. unfold negb.
  rewrite sql_insert_fresh; [reflexivity | exact Hfresh].
Qed.

Lemma report_issue_fresh_id_witness :
  report_issue CATEGORIES quarter_past quarter_past_later
    "Broken swing" "community" "44.96,-93.21" [pothole]
  = (Ok "issue_1700000100.5",
     [pothole;
      mkIssue "issue_1700000100.5" "Broken swing" "community" "44.96,-93.21"
              "open" 0 "2023-11-14T16:15:00.500021"]).
Proof.
  apply (report_issue_fresh_id CATEGORIES quarter_past quarter_past_later
           "Broken swing" "community" "44.96,-93.21" [pothole]).
  - unfold CATEGORIES. simpl. tauto.
  - simpl. intros [H|[]]. discriminate H.
Defined.

(** X13: when a row already has the id made from the clock, the insert is
    refused: [report_issue] raises and the table stays as it is. *)
Lemma report_issue_duplicate_id (iter_order : list string)
    (now1 now2 : datetime) (title category location : string) (db : table) :
  In category CATEGORIES ->
  In ("issue_" ++ timestamp now1) (map id db) ->
  report_issue iter_order now1 now2 title category location db
  = (Raise (IntegrityError "UNIQUE constraint failed: issues.id"), db).
Proof.
  intros Hc Hdup. unfold report_issue.
  destruct (in_CATEGORIES_spec category) as [_|Hn]; [|tauto]. unfold negb.
  rewrite sql_insert_duplicate; [reflexivity | exact Hdup].
Qed.

(** C2 fails as stated: when the clock reads a time whose id a row already
    has, the primary key refuses the insert; [report_issue] raises and no
    row is added, although the category is valid. *)
Lemma report_issue_id_collision :
  In "community" CATEGORIES /\
  report_issue CATEGORIES quarter_past quarter_past_later
    "Broken swing" "community" "44.96,-93.21" [pothole; streetlight]
  = (Raise (IntegrityError "UNIQUE constraint failed: issues.id"), [pothole; streetlight]).
Proof.
  split; [unfold CATEGORIES; simpl; tauto | reflexivity].
Qed.

(** ** [get_issues] *)

Section OrderByFacts.
Variable before : Issue -> Issue -> bool.
Hypothesis before_total : forall a b, before a b = false -> before b a = true.
Hypothesis before_trans :
  forall a b c, before a b = true -> before b c = true -> before a c = true.

Lemma insert_row_perm (a : Issue) (l : list Issue) :
  Permutation (insert_row before a l) (a :: l).
Proof.
  induction l as [|b l IH]; simpl; [apply Permutation_refl|].
  destruct (before a b); [apply Permutation_refl|].
  apply perm_trans with (b :: a :: l); [now apply perm_skip | apply perm_swap].
Qed.

Lemma sql_order_by_perm (l : list Issue) :
  Permutation (sql_order_by before l) l.
Proof.
  induction l as [|a l IH]; simpl; [apply perm_nil|].
  apply perm_trans with (a :: sql_order_by before l);
    [apply insert_row_perm | now apply perm_skip].
Qed.

Lemma insert_row_sorted (a : Issue) (l : list Issue) :
  StronglySorted (fun x y => before x y = true) l ->
  StronglySorted (fun x y => before x y = true) (insert_row before a l).
Proof.
  induction 1 as [|b l Hs IH Hb]; simpl.
  - constructor; constructor.
  - destruct (before a b) eqn:Hab.
    + constructor; [now constructor|].
      constructor; [exact Hab|].
      eapply Forall_impl; [|exact Hb]. intros c Hbc. now apply before_trans with b.
    + constructor; [exact IH|].
      apply (Permutation_Forall (Permutation_sym (insert_row_perm a l))).
      constructor; [now apply before_total | exact Hb].
Qed.

Lemma sql_order_by_sorted (l : list Issue) :
  StronglySorted (fun x y => before x y = true) (sql_order_by before l).
Proof.
  induction l as [|a l IH]; simpl; [constructor | now apply insert_row_sorted].
Qed.
End OrderByFacts.

Lemma votes_desc_created_desc_spec (a b : Issue) :
  votes_desc_created_desc a b = true <-> votes_then_recent a b.
Proof.
  unfold votes_desc_created_desc, votes_then_recent.
  rewrite orb_true_iff, andb_true_iff, Z.ltb_lt, Z.eqb_eq. split.
  - intros [H|[H1 H2]]; (split; [lia|]); intros He; [lia | exact H2].
  - intros [H1 H2]. destruct (Z.eq_dec (votes a) (votes b)) as [He|He]; [right | left; lia].
    split; [exact He | now apply H2].
Qed.

Lemma votes_desc_created_desc_total (a b : Issue) :
  votes_desc_created_desc a b = false -> votes_desc_created_desc b a = true.
Proof.
  unfold votes_desc_created_desc.
  rewrite orb_false_iff, andb_false_iff, orb_true_iff, andb_true_iff.
  rewrite Z.ltb_ge, Z.ltb_lt, !Z.eqb_neq, Z.eqb_eq.
  intros [H1 [H2|H2]].
  - left. lia.
  - destruct (Z.eq_dec (votes a) (votes b)) as [He|He]; [right | left; lia].
    split; [now symmetry|].
    destruct (String.leb_total (created_at a) (created_at b)) as [H|H];
      [exact H | congruence].
Qed.

Lemma votes_desc_created_desc_trans (a b c : Issue) :
  votes_desc_created_desc a b = true -> votes_desc_created_desc b c = true ->
  votes_desc_created_desc a c = true.
Proof.
  rewrite !votes_desc_created_desc_spec. unfold votes_then_recent.
  intros [H1 H2] [H3 H4]. split; [lia|].
  intros He. apply leb_trans with (created_at b); [apply H4 | apply H2]; lia.
Qed.

Lemma get_issues_perm (category : option string) (sort_by : string) (db : table) :
  Permutation (get_issues category sort_by db)
    (match category with
     | Some c => if String.eqb c "" then db else sql_where_category c db
     | None => db
     end).
Proof.
  unfold get_issues, truthy.
  set (rows := match category with Some c => _ | None => _ end).
  assert (Hrows : rows = match category with
                         | Some c => if String.eqb c "" then db else sql_where_category c db
                         | None => db
                         end).
  { subst rows. destruct category as [c|]; [|reflexivity]. now destruct (String.eqb c ""). }
  rewrite <- Hrows.
  destruct (String.eqb sort_by "votes"); [apply sql_order_by_perm|].
  destruct (String.eqb sort_by "recent"); [apply sql_order_by_perm | apply Permutation_refl].
Qed.

(** C5: whatever the table and the category argument, the list that
    [get_issues] returns for [sort_by = "votes"] is non-increasing in votes,
    and among rows with equal votes non-increasing in [created_at]: every
    row stands in that relation to every row after it. *)
Theorem get_issues_votes_sorted (category : option string) (db : table) :
  StronglySorted votes_then_recent (get_issues category "votes" db).
Proof.
  unfold get_issues. rewrite String.eqb_refl.
  match goal with |- StronglySorted _ (sql_order_by _ ?rows) =>
    generalize (sql_order_by_sorted votes_desc_created_desc
                  votes_desc_created_desc_total votes_desc_created_desc_trans rows);
    generalize (sql_order_by votes_desc_created_desc rows)
  end.
  induction 1 as [|a l Hs IH Ha]; constructor; [exact IH|].
  eapply Forall_impl; [|exact Ha]. intros b. apply votes_desc_created_desc_spec.
Qed.

(** C10: with the empty string as category (as with no category), no
    filter is applied: the result is the result of the call without a
    category, and it holds every row of the table, whatever [sort_by] is. *)
Theorem get_issues_empty_category (sort_by : string) (db : table) :
  get_issues (Some "") sort_by db = get_issues None sort_by db /\
  Permutation (get_issues (Some "") sort_by db) db.
Proof.
  split; [reflexivity|]. apply (get_issues_perm (Some "")).
Qed.

(** C6, as the code has it: for a non-empty category argument [c],
    [get_issues] returns exactly the rows whose category is [c], character
    for character (each as often as the table has it), and the empty list
    when no row matches. *)
Theorem get_issues_category_exact (c sort_by : string) (db : table) :
  c <> "" ->
  Permutation (get_issues (Some c) sort_by db)
              (filter (fun r => String.eqb (category r) c) db) /\
  (forall r, In r (get_issues (Some c) sort_by db) <-> In r db /\ category r = c) /\
  ((forall r, In r db -> category r <> c) -> get_issues (Some c) sort_by db = []).
Proof.
  intros Hc.
  assert (Hp : Permutation (get_issues (Some c) sort_by db)
                 (filter (fun r => String.eqb (category r) c) db)).
  { generalize (get_issues_perm (Some c) sort_by db).
    destruct (String.eqb_spec c "") as [He|_]; [contradiction | tauto]. }
  split; [exact Hp|]. split.
  - intros r. rewrite <- String.eqb_eq.
    rewrite <- (filter_In (fun r => String.eqb (category r) c)). split; intros H.
    + now apply (Permutation_in _ Hp).
    + now apply (Permutation_in _ (Permutation_sym Hp)).
  - intros Hno. apply Permutation_nil. apply Permutation_sym.
    replace (filter (fun r => String.eqb (category r) c) db) with (@nil Issue) in Hp;
      [exact Hp|].
    symmetry. clear Hp. induction db as [|r db IH]; [reflexivity|]. simpl.
    destruct (String.eqb_spec (category r) c) as [He|_].
    + exfalso. apply (Hno r); [now left | exact He].
    + apply IH. intros r' Hr'. apply Hno. now right.
Qed.

Lemma get_issues_category_exact_witness :
  Permutation (get_issues (Some "safety") "votes" [pothole; streetlight])
              (filter (fun r => String.eqb (category r) "safety") [pothole; streetlight]) /\
  (forall r, In r (get_issues (Some "safety") "votes" [pothole; streetlight])
             <-> In r [pothole; streetlight] /\ category r = "safety") /\
  ((forall r, In r [pothole; streetlight] -> category r <> "safety") ->
   get_issues (Some "safety") "votes" [pothole; streetlight] = []).
Proof.
  apply (get_issues_category_exact "safety" "votes" [pothole; streetlight]).
  discriminate.
Defined.

(** C6 fails as stated: the empty string is a category argument, no row has
    the empty category, and still [get_issues] returns rows for it. *)
Lemma get_issues_empty_category_not_exact :
  get_issues (Some "") "votes" [pothole; streetlight] = [pothole; streetlight] /\
  filter (fun r => String.eqb (category r) "") [pothole; streetlight] = [].
Proof.
  split; reflexivity.
Qed.

(** ** Votes along a run *)

Lemma table_after_votes_nonneg (iter_order : list string) (c : call) (db : table) :
  Forall (fun r => 0 <= votes r) db ->
  Forall (fun r => 0 <= votes r) (table_after iter_order c db).
Proof.
  intros H. destruct c as [now1 now2 t c l|i| | |]; simpl; try exact H.
  - unfold report_issue.
    destruct (negb (in_CATEGORIES c)); [exact H|].
    unfold sql_insert. destruct (existsb _ db); [exact H|]. simpl.
    apply Forall_app. split; [exact H|]. constructor; [simpl; lia | constructor].
  - unfold sql_update_votes. apply Forall_map.
    eapply Forall_impl; [|exact H]. intros r Hr. cbv beta in Hr |- *.
    destruct (String.eqb (id r) i); simpl; lia.
Qed.

Lemma table_after_votes_mono (iter_order : list string) (c : call) (db : table)
    (k : nat) (r : Issue) :
  nth_error db k = Some r ->
  exists r', nth_error (table_after iter_order c db) k = Some r' /\
             id r' = id r /\ votes r <= votes r'.
Proof.
  intros H.
  assert (Hsame : exists r', nth_error db k = Some r' /\ id r' = id r /\ votes r <= votes r').
  { exists r. split; [exact H | split; [reflexivity | lia]]. }
  destruct c as [now1 now2 t c l|i| | |]; simpl; try exact Hsame.
  - unfold report_issue.
    destruct (negb (in_CATEGORIES c)); [exact Hsame|].
    unfold sql_insert. destruct (existsb _ db); [exact Hsame|]. simpl.
    exists r. split; [|split; [reflexivity | lia]].
    rewrite nth_error_app1; [exact H|]. apply nth_error_Some. congruence.
  - rewrite (update_votes_nth i db k r H).
    eexists. split; [reflexivity|].
    destruct (String.eqb (id r) i); simpl; split; try reflexivity; lia.
Qed.

Lemma update_votes_ids (issue_id : string) (db : table) :
  map id (sql_update_votes issue_id db) = map id db.
Proof.
  unfold sql_update_votes. rewrite map_map. apply map_ext.
  intros r. now destruct (String.eqb (id r) issue_id).
Qed.

Lemma table_after_ids_unique (iter_order : list string) (c : call) (db : table) :
  NoDup (map id db) -> NoDup (map id (table_after iter_order c db)).
Proof.
  intros H. destruct c as [now1 now2 t c l|i| | |]; simpl; try exact H.
  - unfold report_issue.
    destruct (negb (in_CATEGORIES c)); [exact H|].
    unfold sql_insert. destruct (existsb _ db) eqn:He; [exact H|]. simpl.
    rewrite map_app. simpl.
    apply (Permutation_NoDup (l := ("issue_" ++ timestamp now1) :: map id db)).
    + apply Permutation_cons_append.
    + constructor; [|exact H].
      intros Hin. apply in_map_iff in Hin as [r [Hr Hin]].
      assert (Ht : existsb (fun r0 => String.eqb (id r0)
                     (id (Issue_new now2 ("issue_" ++ timestamp now1) t c l))) db = true).
      { apply existsb_exists. exists r. split; [exact Hin|]. now apply String.eqb_eq. }
      congruence.
  - now rewrite update_votes_ids.
Qed.

(** X23: the primary key along a run: no two rows of a table that a
    sequence of calls reaches have the same id. *)
Lemma run_ids_unique (iter_order : list string) (calls : list call) :
  NoDup (map id (run iter_order calls)).
Proof.
  unfold run.
  assert (H : NoDup (map id (@nil Issue))) by constructor.
  revert H. generalize (@nil Issue).
  induction calls as [|c calls IH]; intros db H; simpl; [exact H|].
  apply IH. now apply table_after_ids_unique.
Qed.

(** C9: in every table that a sequence of calls of [report_issue],
    [vote_issue], [get_issues], [get_stats] and [export_json] reaches from
    the empty table, every row has [votes >= 0]; and one more call, whatever
    it is, leaves each row in its place with its id and with votes at least
    what they were: no call lowers or resets a vote count. *)
Theorem votes_never_decrease (iter_order : list string) (calls : list call) :
  Forall (fun r => 0 <= votes r) (run iter_order calls) /\
  forall (c : call) (k : nat) (r : Issue),
    nth_error (run iter_order calls) k = Some r ->
    exists r', nth_error (table_after iter_order c (run iter_order calls)) k = Some r' /\
               id r' = id r /\ votes r <= votes r'.
Proof.
  split.
  - unfold run.
    assert (H : Forall (fun r => 0 <= votes r) (@nil Issue)) by constructor.
    revert H. generalize (@nil Issue).
    induction calls as [|c calls IH]; intros db H; simpl; [exact H|].
    apply IH. now apply table_after_votes_nonneg.
  - intros c k r. apply table_after_votes_mono.
Qed.

(** ** [get_stats] *)

Lemma round_half_even_near (num den : Z) :
  0 < den ->
  2 * Z.abs (num - round_half_even num den * den) <= den.
Proof.
  intros Hden. unfold round_half_even.
  pose proof (Z.div_mod num den ltac:(lia)) as Hdm.
  pose proof (Z.mod_pos_bound num den Hden) as Hr.
  destruct (Z.compare_spec (2 * (num mod den)) den) as [H|H|H].
  - destruct (Z.even (num / den)); nia.
  - nia.
  - nia.
Qed.

Lemma round_half_even_nonneg (num den : Z) :
  0 <= num -> 0 < den -> 0 <= round_half_even num den.
Proof.
  intros Hn Hd. unfold round_half_even.
  assert (0 <= num / den) by (apply Z.div_pos; lia).
  destruct (2 * (num mod den) ?= den); [destruct (Z.even _)| |]; lia.
Qed.

Lemma float_round_spec (x : spec_float) (n : Z) :
  0 <= n <= 323 -> rounded_to_places n x (float_round x n).
Proof.
  intros Hn. destruct x as [s|s| |s m e]; try reflexivity.
  unfold rounded_to_places, float_round.
  destruct (Z.ltb_spec 323 n) as [Hbig|_]; [lia|].
  assert (H10 : 0 < 10 ^ n) by (apply Z.pow_pos_nonneg; lia).
  destruct (Z.leb_spec 0 e) as [He|He].
  - exists (Zpos m * 2 ^ e * 10 ^ n).
    assert (0 < 2 ^ e) by (apply Z.pow_pos_nonneg; lia).
    split; [nia|]. split; [reflexivity|].
    rewrite (Z.max_l e 0), (Z.max_r (- e) 0) by lia.
    change (2 ^ 0) with 1.
    replace (Zpos m * 10 ^ n * 2 ^ e - Zpos m * 2 ^ e * 10 ^ n * 1) with 0 by ring.
    rewrite Z.abs_0. lia.
  - exists (round_half_even (Zpos m * 10 ^ n) (2 ^ (- e))).
    assert (Hd : 0 < 2 ^ (- e)) by (apply Z.pow_pos_nonneg; lia).
    split; [apply round_half_even_nonneg; nia|]. split; [reflexivity|].
    rewrite (Z.max_r e 0), (Z.max_l (- e) 0) by lia.
    change (2 ^ 0) with 1. rewrite Z.mul_1_r.
    now apply round_half_even_near.
Qed.

Lemma dict_get_set_other {A : Type} (d : dict A) (k k' : string) (v : A) :
  k <> k' -> dict_get k' (dict_set d k v) = dict_get k' d.
Proof.
  intros Hk. unfold dict_get. induction d as [|[k0 v0] d IH]; simpl.
  - destruct (String.eqb_spec k k'); [contradiction | reflexivity].
  - destruct (String.eqb_spec k0 k) as [->|Hk0]; simpl.
    + destruct (String.eqb_spec k k'); [contradiction | reflexivity].
    + destruct (String.eqb k0 k'); [reflexivity | exact IH].
Qed.

Lemma dict_get_set_same {A : Type} (d : dict A) (k : string) (v : A) :
  dict_get k (dict_set d k v) = Some v.
Proof.
  unfold dict_get. induction d as [|[k0 v0] d IH]; simpl.
  - now rewrite String.eqb_refl.
  - destruct (String.eqb_spec k0 k) as [->|Hk0]; simpl.
    + now rewrite String.eqb_refl.
    + destruct (String.eqb_spec k0 k); [contradiction | exact IH].
Qed.

(** The dict that the loop of [get_stats] builds: a key is there when the
    loop met it, with the count computed for it. *)
Lemma by_category_loop (f : string -> Z) (order : list string) (d : dict Z) (c : string) :
  dict_get c (fold_left (fun d cat => dict_set d cat (f cat)) order d)
  = if in_dec String.string_dec c order then Some (f c) else dict_get c d.
Proof.
  revert d. induction order as [|k order IH]; intros d; simpl; [reflexivity|].
  rewrite IH.
  destruct (in_dec String.string_dec c order) as [Hin|Hn];
    destruct (String.string_dec k c) as [->|Hk]; try reflexivity.
  - apply dict_get_set_same.
  - now apply dict_get_set_other.
Qed.

(** C7: [get_stats] returns the number of rows as the total (an integer, not
    negative); as the average it returns the integer 0 when there is no row
    (and when the average is zero), and otherwise the float obtained by
    rounding to 2 decimal places the binary64 quotient of the sum of the
    votes by the number of rows; and its mapping has every category of the
    fixed set, each with the number of rows of that category (0 when there
    is none), and no other key. *)
Theorem get_stats_spec (iter_order : list string) (db : table) :
  Permutation iter_order CATEGORIES ->
  let stats := get_stats iter_order db in
  let avg := SFdiv prec emax (double_of_Z (fold_right Z.add 0 (map votes db)))
                             (double_of_Z (Z.of_nat (List.length db))) in
  total_issues stats = Z.of_nat (List.length db) /\
  0 <= total_issues stats /\
  (db = [] -> average_votes stats = PyInt 0) /\
  (db <> [] ->
   if is_zero avg then average_votes stats = PyInt 0
   else exists r, average_votes stats = PyFloat r /\ rounded_to_places 2 avg r) /\
  (forall c, In c CATEGORIES ->
     dict_get c (by_category stats)
     = Some (Z.of_nat (List.length (filter (fun r => String.eqb (category r) c) db)))) /\
  (forall c, ~ In c CATEGORIES -> dict_get c (by_category stats) = None).
Proof.
  intros Hperm stats avg. subst stats. unfold get_stats. simpl.
  split; [reflexivity|]. split; [unfold sql_count; lia|].
  split; [intros ->; reflexivity|]. split; [|split].
  - intros Hne. destruct db as [|r db]; [contradiction|].
    unfold sql_avg_votes, or_zero, sql_count. fold avg.
    destruct (is_zero avg) eqn:Hz; [reflexivity|].
    exists (float_round avg 2). split; [reflexivity|]. apply float_round_spec. lia.
  - intros c Hc. rewrite by_category_loop.
    destruct (in_dec String.string_dec c iter_order) as [_|Hn]; [reflexivity|].
    exfalso. apply Hn. now apply (Permutation_in _ (Permutation_sym Hperm)).
  - intros c Hc. rewrite by_category_loop.
    destruct (in_dec String.string_dec c iter_order) as [Hin|_]; [|reflexivity].
    exfalso. apply Hc. now apply (Permutation_in _ Hperm).
Qed.

Lemma get_stats_spec_witness :
  let stats := get_stats CATEGORIES [pothole; streetlight] in
  total_issues stats = 2 /\
  average_votes stats = PyFloat (S754_finite false 6755399441055744 (-52)) /\
  dict_get "safety" (by_category stats) = Some 1 /\
  dict_get "transit" (by_category stats) = Some 0 /\
  dict_get "noise" (by_category stats) = None.
Proof.
  destruct (get_stats_spec CATEGORIES [pothole; streetlight] (Permutation_refl _))
    as (Htotal & _ & _ & _ & Hin & Hout).
  split; [exact Htotal|]. split; [reflexivity|].
  split; [|split].
  - apply (Hin "safety"). unfold CATEGORIES. simpl. tauto.
  - apply (Hin "transit"). unfold CATEGORIES. simpl. tauto.
  - apply (Hout "noise"). unfold CATEGORIES. simpl.
    intros [H|[H|[H|[H|[H|[]]]]]]; discriminate H.
Defined.

(** The scenario of the specification: three issues in the categories
    infrastructure, safety, infrastructure, two votes for the last one.
    The average is 0.67, the double [6034823500676465 * 2^-53]. *)
Example get_stats_scenario :
  let calls :=
    [Report (mkDatetime "1700000000.25" "2023-11-14T16:13:20.250000")
            (mkDatetime "1700000000.25" "2023-11-14T16:13:20.250007")
            "Pothole on Main St" "infrastructure" "44.97,-93.26";
     Report (mkDatetime "1700000100.5" "2023-11-14T16:15:00.500000")
            (mkDatetime "1700000100.5" "2023-11-14T16:15:00.500006")
            "Streetlight out" "safety" "44.98,-93.27";
     Report (mkDatetime "1700000200.75" "2023-11-14T16:16:40.750000")
            (mkDatetime "1700000200.75" "2023-11-14T16:16:40.750008")
            "Bridge railing loose" "infrastructure" "44.99,-93.28";
     Vote "issue_1700000200.75"; Vote "issue_1700000200.75"] in
  let stats := get_stats CATEGORIES (run CATEGORIES calls) in
  total_issues stats = 3 /\
  dict_get "infrastructure" (by_category stats) = Some 2 /\
  dict_get "safety" (by_category stats) = Some 1 /\
  average_votes stats = PyFloat (S754_finite false 6034823500676465 (-53)) /\
  float_repr (S754_finite false 6034823500676465 (-53)) = "0.67".
Proof. vm_compute. repeat split. Qed.

(** ** [json.loads] after [json.dumps] *)

(** *** Text of numbers *)

Lemma length_append (s t : string) :
  String.length (s ++ t) = (String.length s + String.length t)%nat.
Proof. induction s as [|c s IH]; simpl; [reflexivity | now rewrite IH]. Qed.


Lemma span_digits_app (s rest : string) :
  starts_outside is_digit rest ->
  span_digits (s ++ rest) = (fst (span_digits s), snd (span_digits s) ++ rest).
Proof.
  intros Hrest. induction s as [|c s IH]; simpl.
  - destruct rest as [|c r]; [reflexivity|]. simpl in *. now rewrite Hrest.
  - destruct (is_digit c); [|reflexivity].
    rewrite IH. now destruct (span_digits s).
Qed.

Lemma starts_outside_weaken (rest : string) :
  starts_outside number_char rest -> starts_outside is_digit rest.
Proof.
  destruct rest as [|c r]; simpl; [tauto|]. unfold number_char.
  now destruct (is_digit c).
Qed.

Lemma match_frac_app (s rest : string) :
  starts_outside number_char rest ->
  match_frac (s ++ rest) = (fst (match_frac s), snd (match_frac s) ++ rest).
Proof.
  intros Hrest. pose proof (starts_outside_weaken _ Hrest) as Hd.
  unfold match_frac. destruct s as [|c s]; simpl.
  - destruct rest as [|c r]; [reflexivity|].
    simpl in Hrest. unfold number_char in Hrest.
    destruct (Ascii.eqb c "."); [|reflexivity].
    rewrite orb_true_r in Hrest. discriminate.
  - destruct (Ascii.eqb c "."); [|reflexivity].
    rewrite (span_digits_app s rest Hd).
    destruct (span_digits s) as [ds r]. simpl. now destruct ds.
Qed.

Lemma match_sign_app (s rest : string) :
  starts_outside number_char rest ->
  match_sign (s ++ rest) = (fst (match_sign s), snd (match_sign s) ++ rest).
Proof.
  intros Hrest. unfold match_sign. destruct s as [|c s]; simpl.
  - destruct rest as [|c r]; [reflexivity|].
    simpl in Hrest. unfold number_char in Hrest.
    destruct (Ascii.eqb c "-"), (Ascii.eqb c "+"); try reflexivity;
      rewrite ?orb_true_r in Hrest; discriminate.
  - now destruct (Ascii.eqb c "-" || Ascii.eqb c "+").
Qed.

Lemma match_exp_app (s rest : string) :
  starts_outside number_char rest ->
  match_exp (s ++ rest) = (fst (match_exp s), snd (match_exp s) ++ rest).
Proof.
  intros Hrest. pose proof (starts_outside_weaken _ Hrest) as Hd.
  unfold match_exp. destruct s as [|c s]; simpl.
  - destruct rest as [|c r]; [reflexivity|].
    simpl in Hrest. unfold number_char in Hrest.
    destruct (Ascii.eqb c "e"), (Ascii.eqb c "E"); try reflexivity;
      rewrite ?orb_true_r in Hrest; simpl in Hrest; rewrite ?orb_true_r in Hrest; discriminate.
  - destruct (Ascii.eqb c "e" || Ascii.eqb c "E"); [|reflexivity].
    rewrite (match_sign_app s rest Hrest).
    destruct (match_sign s) as [sg r1]. simpl.
    rewrite (span_digits_app r1 rest Hd).
    destruct (span_digits r1) as [ds r]. simpl. now destruct ds.
Qed.

Lemma match_integer_app (s rest i r : string) :
  starts_outside is_digit rest ->
  match_integer s = Some (i, r) ->
  match_integer (s ++ rest) = Some (i, r ++ rest).
Proof.
  intros Hd. unfold match_integer.
  assert (Hm : match_minus (s ++ rest) = (fst (match_minus s), snd (match_minus s) ++ rest)
               \/ s = "").
  { unfold match_minus. destruct s as [|c s]; [now right | left]. simpl.
    now destruct (Ascii.eqb c "-"). }
  destruct Hm as [Hm| ->]; [|discriminate].
  rewrite Hm. destruct (match_minus s) as [sg s1]. simpl.
  destruct s1 as [|c s1]; [discriminate|]. simpl.
  destruct (Ascii.eqb c "0"); [intros [= <- <-]; reflexivity|].
  destruct (is_digit c); [|discriminate].
  rewrite (span_digits_app s1 rest Hd).
  destruct (span_digits s1) as [ds r']. simpl. now intros [= <- <-].
Qed.

Lemma match_number_app (s rest i f e r : string) :
  starts_outside number_char rest ->
  match_number s = Some (i, f, e, r) ->
  match_number (s ++ rest) = Some (i, f, e, r ++ rest).
Proof.
  intros Hrest. unfold match_number.
  destruct (match_integer s) as [[i0 r0]|] eqn:Hi; [|discriminate].
  rewrite (match_integer_app _ _ _ _ (starts_outside_weaken _ Hrest) Hi).
  rewrite (match_frac_app r0 rest Hrest).
  destruct (match_frac r0) as [f0 r1]. simpl.
  rewrite (match_exp_app r1 rest Hrest).
  destruct (match_exp r1) as [e0 r2]. simpl.
  now intros [= <- <- <- <-].
Qed.

(** *** Integers *)

Lemma string_of_uint_digits (d : Decimal.uint) :
  span_digits (NilEmpty.string_of_uint d) = (NilEmpty.string_of_uint d, "").
Proof.
  induction d; simpl; try reflexivity; now rewrite IHd.
Qed.

Lemma to_uint_norm (n : N) : unorm (N.to_uint n) = N.to_uint n.
Proof.
  rewrite <- (DecimalN.Unsigned.to_of (N.to_uint n)).
  now rewrite DecimalN.Unsigned.of_to.
Qed.

Lemma digits_val_digits_of (k : Z) : 0 <= k -> digits_val (digits_of k) = k.
Proof.
  intros Hk. unfold digits_val, digits_of.
  rewrite NilEmpty.usu, DecimalN.Unsigned.of_to. now apply Z2N.id.
Qed.

(** The digits of a number are ["0"], or start with a digit that is not 0. *)
Lemma digits_of_shape (k : Z) :
  digits_of k = "0" \/
  exists c r, digits_of k = String c r /\ is_digit c = true /\ Ascii.eqb c "0" = false.
Proof.
  unfold digits_of. rewrite <- to_uint_norm.
  generalize (N.to_uint (Z.to_N k)). intros u.
  unfold unorm. pose proof (nzhead_nonzero u) as Hnz.
  destruct (nzhead u) as [|d|d|d|d|d|d|d|d|d|d]; simpl;
    try (right; eexists; eexists; split; [reflexivity | split; reflexivity]).
  - now left.
  - exfalso. now apply (Hnz d).
Qed.

Lemma digits_of_span (k : Z) : span_digits (digits_of k) = (digits_of k, "").
Proof. apply string_of_uint_digits. Qed.

Lemma match_minus_digit (c : ascii) (r : string) :
  is_digit c = true -> match_minus (String c r) = ("", String c r).
Proof.
  intros Hc. unfold match_minus.
  destruct (Ascii.eqb_spec c "-") as [->|_]; [discriminate | reflexivity].
Qed.

Lemma match_integer_digits (k : Z) :
  match_integer (digits_of k) = Some (digits_of k, "").
Proof.
  unfold match_integer.
  destruct (digits_of_shape k) as [H0|[c [r [Hk [Hd Hz]]]]].
  - rewrite H0. reflexivity.
  - pose proof (digits_of_span k) as Hs. rewrite Hk in *.
    rewrite (match_minus_digit c r Hd), Hz, Hd, Hs. reflexivity.
Qed.

Lemma match_integer_minus_digits (k : Z) :
  match_integer ("-" ++ digits_of k) = Some ("-" ++ digits_of k, "").
Proof.
  unfold match_integer. simpl.
  destruct (digits_of_shape k) as [H0|[c [r [Hk [Hd Hz]]]]].
  - rewrite H0. reflexivity.
  - pose proof (digits_of_span k) as Hs. rewrite Hk in *.
    rewrite Hz, Hd, Hs. reflexivity.
Qed.

Lemma match_number_int_repr (n : Z) :
  match_number (int_repr n) = Some (int_repr n, "", "", "").
Proof.
  unfold match_number, int_repr. destruct (n <? 0).
  - now rewrite match_integer_minus_digits.
  - now rewrite match_integer_digits.
Qed.

Lemma parse_int_int_repr (n : Z) : parse_int (int_repr n) = n.
Proof.
  unfold parse_int, int_repr. destruct (Z.ltb_spec n 0) as [Hn|Hn].
  - simpl. rewrite digits_val_digits_of; lia.
  - destruct (digits_of_shape n) as [H0|[c [r [Hk [Hd Hz]]]]].
    + rewrite <- (digits_val_digits_of n Hn), H0. reflexivity.
    + rewrite <- (digits_val_digits_of n Hn) at 2. rewrite Hk.
      now rewrite (match_minus_digit c r Hd).
Qed.

(** *** The scalars of [scan_once] *)

Lemma match_integer_start (s i r : string) :
  match_integer s = Some (i, r) ->
  exists c s', s = String c s' /\ (c = "-"%char \/ is_digit c = true).
Proof.
  unfold match_integer, match_minus. destruct s as [|c s]; [discriminate|].
  intros H. exists c, s. split; [reflexivity|].
  destruct (Ascii.eqb_spec c "-") as [->|Hc]; [now left | right].
  destruct (Ascii.eqb_spec c "0") as [->|Hz]; [reflexivity|].
  now destruct (is_digit c).
Qed.

Lemma strip_prefix_number_start (p : string) (pc c : ascii) (s : string) :
  is_digit pc = false -> pc <> "-"%char ->
  c = "-"%char \/ is_digit c = true ->
  strip_prefix (String pc p) (String c s) = None.
Proof.
  intros Hp1 Hp2 Hc. simpl.
  destruct (Ascii.eqb_spec pc c) as [->|_]; [|reflexivity].
  destruct Hc as [->|Hc]; congruence.
Qed.

Lemma scan_scalar_number (s i f e r : string) :
  match_number s = Some (i, f, e, r) ->
  scan_scalar s
  = Some (if String.eqb f "" && String.eqb e "" then JInt (parse_int i)
          else JFloat (parse_float i f e), r).
Proof.
  intros H. unfold scan_scalar.
  assert (Hi : exists i r, match_integer s = Some (i, r)).
  { unfold match_number in H. destruct (match_integer s) as [[i0 r0]|]; [eauto | discriminate]. }
  destruct Hi as [i0 [r0 Hi]].
  destruct (match_integer_start _ _ _ Hi) as [c [s' [-> Hc]]].
  rewrite !(strip_prefix_number_start _ _ c s') by (now auto || discriminate).
  rewrite H. now destruct (String.eqb f "" && String.eqb e "").
Qed.

Lemma scan_once_scalar (fuel : nat) (c : ascii) (s : string) :
  c = "-"%char \/ is_digit c = true ->
  scan_once (S fuel) (String c s) = scan_scalar (String c s).
Proof.
  intros Hc. simpl.
  destruct (Ascii.eqb_spec c dquote) as [->|_]; [destruct Hc; discriminate|].
  destruct (Ascii.eqb_spec c "{") as [->|_]; [destruct Hc; discriminate|].
  destruct (Ascii.eqb_spec c "[") as [->|_]; [destruct Hc; discriminate|].
  reflexivity.
Qed.

(** *** Strings *)

Lemma scanstring_escape_char (c : ascii) (t : string) :
  scanstring (escape_char c ++ t) = cons_fst c (scanstring t).
Proof.
  destruct c as [[] [] [] [] [] [] [] []]; reflexivity.
Qed.

Lemma scanstring_escape (s rest : string) :
  scanstring (escape s ++ String dquote rest) = Some (s, rest).
Proof.
  induction s as [|c s IH]; [reflexivity|].
  simpl escape. rewrite append_assoc, scanstring_escape_char, IH. reflexivity.
Qed.

Lemma scan_once_dquote (fuel : nat) (t : string) :
  scan_once (S fuel) (String dquote t)
  = match scanstring t with
    | Some (str, r) => Some (JString str, r)
    | None => None
    end.
Proof. reflexivity. Qed.

Lemma encode_string_app (s rest : string) :
  encode_string s ++ rest = String dquote (escape s ++ String dquote rest).
Proof. unfold encode_string. simpl. now rewrite append_assoc. Qed.

Lemma scan_once_string (fuel : nat) (s rest : string) :
  scan_once (S fuel) (encode_string s ++ rest) = Some (JString s, rest).
Proof.
  now rewrite encode_string_app, scan_once_dquote, scanstring_escape.
Qed.

(** *** White space *)

Lemma skip_ws_spaces (n : nat) (s : string) : skip_ws (spaces n ++ s) = skip_ws s.
Proof. induction n as [|n IH]; [reflexivity | exact IH]. Qed.

Lemma skip_ws_newline_indent (indent level : nat) (s : string) :
  skip_ws (newline_indent indent level ++ s) = skip_ws s.
Proof. unfold newline_indent. simpl. apply skip_ws_spaces. Qed.

Lemma skip_ws_start (c : ascii) (s : string) :
  is_ws c = false -> skip_ws (String c s) = String c s.
Proof. intros H. simpl. now rewrite H. Qed.


(** *** The first character of a value *)

Lemma number_start_not_ws (c : ascii) :
  c = "-"%char \/ is_digit c = true ->
  is_ws c = false /\ Ascii.eqb c "]" = false.
Proof.
  intros [->|Hc]; [split; reflexivity|].
  destruct c as [[] [] [] [] [] [] [] []]; try discriminate Hc; split; reflexivity.
Qed.

Lemma match_number_start (s i f e r : string) :
  match_number s = Some (i, f, e, r) ->
  exists c s', s = String c s' /\ (c = "-"%char \/ is_digit c = true).
Proof.
  unfold match_number. destruct (match_integer s) as [[i0 r0]|] eqn:Hi; [|discriminate].
  intros _. eapply match_integer_start, Hi.
Qed.

Lemma reads_back_inv (x : spec_float) (t : string) :
  reads_back x t = true ->
  exists i f e, match_number t = Some (i, f, e, "") /\
                String.eqb f "" && String.eqb e "" = false /\
                parse_float i f e = x.
Proof.
  unfold reads_back. destruct (match_number t) as [[[[i f] e] r]|]; [|discriminate].
  destruct r; [|discriminate].
  rewrite andb_true_iff, negb_true_iff. intros [H1 H2].
  exists i, f, e. split; [reflexivity|]. split; [exact H1|].
  destruct (parse_float i f e) as [s|s| |s m ex], x as [s'|s'| |s' m' ex']; simpl in H2;
    try discriminate; try reflexivity.
  - apply Bool.eqb_prop in H2. now subst.
  - apply Bool.eqb_prop in H2. now subst.
  - rewrite !andb_true_iff in H2. destruct H2 as [[H2 H3] H4].
    apply Bool.eqb_prop in H2. apply Pos.eqb_eq in H3. apply Z.eqb_eq in H4. now subst.
Qed.

Lemma float_ok_floatstr (x : spec_float) :
  float_ok x = true ->
  reads_back x (floatstr x) = true \/
  (x = S754_nan /\ floatstr x = "NaN") \/
  (x = S754_infinity false /\ floatstr x = "Infinity") \/
  (x = S754_infinity true /\ floatstr x = "-Infinity").
Proof.
  unfold float_ok, floatstr. destruct x as [s|[]| |s m e]; intros H; auto.
Qed.

Lemma encode_start (v : json) (indent level : nat) :
  json_ok v = true ->
  exists c r, encode indent level v = String c r /\
              is_ws c = false /\ Ascii.eqb c "]" = false.
Proof.
  intros Hok.
  assert (Hnum : forall t i f e,
             match_number t = Some (i, f, e, "") ->
             exists c r, t = String c r /\ is_ws c = false /\ Ascii.eqb c "]" = false).
  { intros t i f e Hm.
    destruct (match_number_start _ _ _ _ _ Hm) as [c [r [He Hc]]].
    exists c, r. split; [exact He | now apply number_start_not_ws]. }
  destruct v as [|b|n|x|s|l|d].
  - exists "n"%char, "ull". repeat split.
  - destruct b; [exists "t"%char, "rue" | exists "f"%char, "alse"]; repeat split.
  - apply (Hnum _ _ _ _ (match_number_int_repr n)).
  - cbn [encode].
    destruct (float_ok_floatstr x Hok) as [Hr|[[_ ->]|[[_ ->]|[_ ->]]]];
      [|eexists; eexists; (split; [reflexivity | split; reflexivity])..].
    apply reads_back_inv in Hr. destruct Hr as [i [f [e [Hm _]]]].
    apply (Hnum _ _ _ _ Hm).
  - exists dquote, (escape s ++ String dquote ""). repeat split.
  - destruct l; eexists; eexists; (split; [reflexivity | split; reflexivity]).
  - destruct d; eexists; eexists; (split; [reflexivity | split; reflexivity]).
Qed.

(** *** Dicts with distinct keys *)

Lemma dict_set_fresh {A : Type} (d : dict A) (k : string) (v : A) :
  existsb (String.eqb k) (map fst d) = false -> dict_set d k v = (d ++ [(k, v)])%list.
Proof.
  induction d as [|[k' v'] d IH]; simpl; [reflexivity|].
  rewrite orb_false_iff. intros [Hk Hd].
  rewrite String.eqb_sym, Hk. now rewrite IH.
Qed.

Lemma dict_of_pairs_distinct {A : Type} (pairs : list (string * A)) :
  distinct (map fst pairs) = true -> dict_of_pairs pairs = pairs.
Proof.
  unfold dict_of_pairs.
  assert (H : forall acc : dict A,
             distinct (map fst (acc ++ pairs)%list) = true ->
             fold_left (fun d kv => dict_set d (fst kv) (snd kv)) pairs acc
             = (acc ++ pairs)%list).
  { induction pairs as [|[k v] pairs IH]; intros acc Hd; simpl.
    - now rewrite List.app_nil_r.
    - rewrite dict_set_fresh.
      + rewrite IH; rewrite <- List.app_assoc; [reflexivity | exact Hd].
      + clear IH. induction acc as [|[k' v'] acc IHacc]; simpl in *; [reflexivity|].
        rewrite andb_true_iff, negb_true_iff in Hd. destruct Hd as [Hk' Hd].
        rewrite (IHacc Hd), orb_false_r.
        rewrite map_app, existsb_app in Hk'. simpl in Hk'.
        rewrite !orb_false_iff in Hk'. destruct Hk' as [_ [Hk' _]].
        now rewrite String.eqb_sym. }
  intros Hd. now apply (H []).
Qed.

(** *** One step of each scanner *)

Lemma array_values_step (fuel : nat) (s : string) :
  array_values (S fuel) s
  = match scan_once fuel s with
    | Some (value, r) =>
        match skip_ws r with
        | String c r1 =>
            if Ascii.eqb c "]" then Some ([value], r1)
            else if Ascii.eqb c "," then
              match array_values fuel (skip_ws r1) with
              | Some (values, r2) => Some (value :: values, r2)
              | None => None
              end
            else None
        | "" => None
        end
    | None => None
    end.
Proof. reflexivity. Qed.

Lemma object_pairs_step (fuel : nat) (s : string) :
  object_pairs (S fuel) s
  = match scanstring s with
    | Some (key, r) =>
        match skip_ws r with
        | String c r1 =>
            if Ascii.eqb c ":" then
              match scan_once fuel (skip_ws r1) with
              | Some (value, r2) =>
                  match skip_ws r2 with
                  | String c2 r3 =>
                      if Ascii.eqb c2 "}" then Some ([(key, value)], r3)
                      else if Ascii.eqb c2 "," then
                        match skip_ws r3 with
                        | String c4 r4 =>
                            if Ascii.eqb c4 dquote then
                              match object_pairs fuel r4 with
                              | Some (pairs, r5) => Some ((key, value) :: pairs, r5)
                              | None => None
                              end
                            else None
                        | "" => None
                        end
                      else None
                  | "" => None
                  end
              | None => None
              end
            else None
        | "" => None
        end
    | None => None
    end.
Proof. reflexivity. Qed.

Lemma scan_once_array (fuel : nat) (s : string) :
  scan_once (S fuel) (String "[" s)
  = match skip_ws s with
    | String c1 r1 =>
        if Ascii.eqb c1 "]" then Some (JArray [], r1)
        else
          match array_values fuel (String c1 r1) with
          | Some (values, r) => Some (JArray values, r)
          | None => None
          end
    | "" => None
    end.
Proof. reflexivity. Qed.

Lemma scan_once_object (fuel : nat) (s : string) :
  scan_once (S fuel) (String "{" s)
  = match skip_ws s with
    | String c1 r1 =>
        if Ascii.eqb c1 "}" then Some (JObject [], r1)
        else if Ascii.eqb c1 dquote then
          match object_pairs fuel r1 with
          | Some (pairs, r) => Some (JObject (dict_of_pairs pairs), r)
          | None => None
          end
        else None
    | "" => None
    end.
Proof. reflexivity. Qed.

Lemma array_values_last (fuel : nat) (s r rest : string) (v : json) :
  scan_once fuel s = Some (v, r) ->
  skip_ws r = String "]" rest ->
  array_values (S fuel) s = Some ([v], rest).
Proof. intros H1 H2. now rewrite array_values_step, H1, H2. Qed.

Lemma array_values_more (fuel : nat) (s r r1 rest : string) (v : json) (vs : list json) :
  scan_once fuel s = Some (v, r) ->
  skip_ws r = String "," r1 ->
  array_values fuel (skip_ws r1) = Some (vs, rest) ->
  array_values (S fuel) s = Some (v :: vs, rest).
Proof.
  intros H1 H2 H3. rewrite array_values_step, H1, H2.
  change (Ascii.eqb "," "]") with false. change (Ascii.eqb "," ",") with true.
  cbv iota. now rewrite H3.
Qed.

Lemma object_pairs_last (fuel : nat) (s key r r1 r2 rest : string) (v : json) :
  scanstring s = Some (key, r) ->
  skip_ws r = String ":" r1 ->
  scan_once fuel (skip_ws r1) = Some (v, r2) ->
  skip_ws r2 = String "}" rest ->
  object_pairs (S fuel) s = Some ([(key, v)], rest).
Proof.
  intros H1 H2 H3 H4. rewrite object_pairs_step, H1, H2.
  change (Ascii.eqb ":" ":") with true. cbv iota. now rewrite H3, H4.
Qed.

Lemma object_pairs_more (fuel : nat) (s key r r1 r2 r3 r4 rest : string) (v : json)
    (pairs : list (string * json)) :
  scanstring s = Some (key, r) ->
  skip_ws r = String ":" r1 ->
  scan_once fuel (skip_ws r1) = Some (v, r2) ->
  skip_ws r2 = String "," r3 ->
  skip_ws r3 = String dquote r4 ->
  object_pairs fuel r4 = Some (pairs, rest) ->
  object_pairs (S fuel) s = Some ((key, v) :: pairs, rest).
Proof.
  intros H1 H2 H3 H4 H5 H6. rewrite object_pairs_step, H1, H2.
  change (Ascii.eqb ":" ":") with true. cbv iota. rewrite H3, H4.
  change (Ascii.eqb "," "}") with false. change (Ascii.eqb "," ",") with true.
  cbv iota. rewrite H5.
  change (Ascii.eqb dquote dquote) with true. cbv iota. now rewrite H6.
Qed.

Lemma scan_once_array_values (fuel : nat) (s r1 rest : string) (c1 : ascii) (vs : list json) :
  skip_ws s = String c1 r1 ->
  Ascii.eqb c1 "]" = false ->
  array_values fuel (String c1 r1) = Some (vs, rest) ->
  scan_once (S fuel) (String "[" s) = Some (JArray vs, rest).
Proof. intros H1 H2 H3. now rewrite scan_once_array, H1, H2, H3. Qed.

Lemma scan_once_object_pairs (fuel : nat) (s r1 rest : string) (pairs : list (string * json)) :
  skip_ws s = String dquote r1 ->
  object_pairs fuel r1 = Some (pairs, rest) ->
  scan_once (S fuel) (String "{" s) = Some (JObject (dict_of_pairs pairs), rest).
Proof.
  intros H1 H2. rewrite scan_once_object, H1.
  change (Ascii.eqb dquote "}") with false. change (Ascii.eqb dquote dquote) with true.
  cbv iota. now rewrite H2.
Qed.


Lemma encode_array (indent level : nat) (v : json) (l : list json) :
  encode indent level (JArray (v :: l))
  = String "[" (newline_indent indent (S level)
        ++ String.concat (item_separator indent (S level))
                         (map (encode indent (S level)) (v :: l))
        ++ newline_indent indent level ++ "]").
Proof. reflexivity. Qed.

Lemma encode_object (indent level : nat) (kv : string * json) (d : dict json) :
  encode indent level (JObject (kv :: d))
  = String "{" (newline_indent indent (S level)
        ++ String.concat (item_separator indent (S level))
                         (map (encode_pair indent (S level)) (kv :: d))
        ++ newline_indent indent level ++ "}").
Proof. reflexivity. Qed.

Lemma concat_cons2 (sep x y : string) (l : list string) :
  String.concat sep (x :: y :: l) = x ++ sep ++ String.concat sep (y :: l).
Proof. reflexivity. Qed.

Lemma item_separator_app (indent level : nat) (t : string) :
  item_separator indent level ++ t = String "," (newline_indent indent level ++ t).
Proof. reflexivity. Qed.

Lemma starts_outside_newline_indent (indent level : nat) (s : string) :
  starts_outside number_char (newline_indent indent level ++ s).
Proof. reflexivity. Qed.

Lemma starts_outside_separator (indent level : nat) (s : string) :
  starts_outside number_char (item_separator indent level ++ s).
Proof. reflexivity. Qed.


Lemma skip_ws_encode (v : json) (indent level : nat) (t : string) :
  json_ok v = true ->
  skip_ws (encode indent level v ++ t) = encode indent level v ++ t.
Proof.
  intros Hok. destruct (encode_start v indent level Hok) as [c [r [He [Hws _]]]].
  rewrite He. now apply skip_ws_start.
Qed.

Lemma array_values_encode (indent level : nat) (l : list json) :
  l <> [] ->
  Forall (fun v => json_ok v = true /\ reads_encoded v) l ->
  forall (fuel : nat) (rest : string),
    (String.length (String.concat (item_separator indent (S level))
                      (map (encode indent (S level)) l)) < fuel)%nat ->
    array_values fuel
      (String.concat (item_separator indent (S level)) (map (encode indent (S level)) l)
       ++ newline_indent indent level ++ "]" ++ rest)
    = Some (l, rest).
Proof.
  induction l as [|x l IH]; [congruence|]. intros _ Hall fuel rest Hfuel.
  inversion Hall as [|x' l' [Hokx Hx] Hl]; subst.
  destruct fuel as [|fuel]; [lia|].
  destruct l as [|y l].
  - cbn [map String.concat] in *.
    eapply array_values_last.
    + apply Hx; [lia | apply starts_outside_newline_indent].
    + rewrite skip_ws_newline_indent. reflexivity.
  - cbn [map] in *. rewrite concat_cons2 in *. rewrite !length_append in Hfuel.
    inversion Hl as [|y' l'' [Hoky Hy] Hl']; subst.
    rewrite !append_assoc.
    eapply array_values_more.
    + apply Hx; [lia | apply starts_outside_separator].
    + rewrite item_separator_app. reflexivity.
    + rewrite skip_ws_newline_indent.
      assert (Hskip : forall t,
                 skip_ws (String.concat (item_separator indent (S level))
                            (encode indent (S level) y :: map (encode indent (S level)) l) ++ t)
                 = String.concat (item_separator indent (S level))
                     (encode indent (S level) y :: map (encode indent (S level)) l) ++ t).
      { intros t. destruct (map (encode indent (S level)) l) as [|z zs].
        - now apply skip_ws_encode.
        - rewrite concat_cons2, append_assoc. now apply skip_ws_encode. }
      rewrite Hskip.
      assert (Hsep : (1 <= String.length (item_separator indent (S level)))%nat)
        by (unfold item_separator; simpl; lia).
      apply IH; [congruence | exact Hl | lia].
Qed.


Lemma encode_pair_app (indent level : nat) (k : string) (v : json) (t : string) :
  encode_pair indent level (k, v) ++ t
  = String dquote (escape k ++ String dquote
                     (String ":" (String " " (encode indent level v ++ t)))).
Proof.
  unfold encode_pair. cbn [fst snd].
  rewrite append_assoc, encode_string_app. now rewrite append_assoc.
Qed.

Lemma pairs_text_start (indent level : nat) (kv : string * json) (d : dict json) (t : string) :
  String.concat (item_separator indent level) (map (encode_pair indent level) (kv :: d)) ++ t
  = String dquote
      (tail_of (String.concat (item_separator indent level)
                  (map (encode_pair indent level) (kv :: d)) ++ t)).
Proof.
  destruct kv as [k v]. cbn [map].
  destruct (map (encode_pair indent level) d) as [|z zs].
  - cbn [String.concat]. now rewrite encode_pair_app.
  - rewrite concat_cons2, append_assoc. now rewrite encode_pair_app.
Qed.

Lemma length_encode_pair (indent level : nat) (k : string) (v : json) :
  (String.length (encode indent level v) < String.length (encode_pair indent level (k, v)))%nat.
Proof.
  unfold encode_pair. cbn [fst snd]. rewrite !length_append.
  unfold encode_string. simpl. lia.
Qed.

Lemma object_pairs_encode (indent level : nat) (d : dict json) :
  d <> [] ->
  Forall (fun kv => json_ok (snd kv) = true /\ reads_encoded (snd kv)) d ->
  forall (fuel : nat) (rest : string),
    (String.length (String.concat (item_separator indent (S level))
                      (map (encode_pair indent (S level)) d)) < fuel)%nat ->
    object_pairs fuel
      (tail_of (String.concat (item_separator indent (S level))
                  (map (encode_pair indent (S level)) d)
                ++ newline_indent indent level ++ "}" ++ rest))
    = Some (d, rest).
Proof.
  induction d as [|[k v] d IH]; [congruence|]. intros _ Hall fuel rest Hfuel.
  inversion Hall as [|kv' d' [Hokv Hv] Hd]; subst. cbn [snd] in *.
  destruct fuel as [|fuel]; [lia|].
  pose proof (length_encode_pair indent (S level) k v) as Hlen.
  destruct d as [|kv2 d].
  - cbn [map String.concat] in *. rewrite encode_pair_app. cbn [tail_of].
    eapply object_pairs_last.
    + apply scanstring_escape.
    + reflexivity.
    + change (skip_ws (String " " ?u)) with (skip_ws u).
      rewrite skip_ws_encode by exact Hokv.
      apply Hv; [lia | apply starts_outside_newline_indent].
    + rewrite skip_ws_newline_indent. reflexivity.
  - cbn [map] in *. rewrite concat_cons2 in *. rewrite !length_append in Hfuel.
    rewrite !append_assoc. rewrite encode_pair_app. cbn [tail_of].
    assert (Hsep : (1 <= String.length (item_separator indent (S level)))%nat)
      by (unfold item_separator; simpl; lia).
    eapply object_pairs_more.
    + apply scanstring_escape.
    + reflexivity.
    + change (skip_ws (String " " ?u)) with (skip_ws u).
      rewrite skip_ws_encode by exact Hokv.
      apply Hv; [lia | apply starts_outside_separator].
    + rewrite item_separator_app. reflexivity.
    + rewrite skip_ws_newline_indent.
      change (encode_pair indent (S level) kv2 :: map (encode_pair indent (S level)) d)
        with (map (encode_pair indent (S level)) (kv2 :: d)).
      rewrite pairs_text_start. reflexivity.
    + apply IH; [congruence | exact Hd | cbn [map]; lia].
Qed.

Lemma scan_once_number (fuel : nat) (t rest i f e : string) :
  match_number t = Some (i, f, e, "") ->
  starts_outside number_char rest ->
  scan_once (S fuel) (t ++ rest)
  = Some (if String.eqb f "" && String.eqb e "" then JInt (parse_int i)
          else JFloat (parse_float i f e), rest).
Proof.
  intros Hm Hrest.
  pose proof (match_number_app _ _ _ _ _ _ Hrest Hm) as Hm'. simpl in Hm'.
  destruct (match_number_start _ _ _ _ _ Hm') as [c [s' [He Hc]]].
  rewrite He in *. rewrite (scan_once_scalar _ _ _ Hc).
  exact (scan_scalar_number _ _ _ _ _ Hm').
Qed.

Lemma forallb_Forall_and {A : Type} (f : A -> bool) (P : A -> Prop) (l : list A) :
  forallb f l = true ->
  Forall (fun a => f a = true -> P a) l ->
  Forall (fun a => f a = true /\ P a) l.
Proof.
  induction l as [|a l IH]; simpl; [constructor|].
  rewrite andb_true_iff. intros [Ha Hl] Hall.
  inversion Hall as [|a' l' Hpa Hpl]; subst.
  constructor; [split; [exact Ha | exact (Hpa Ha)] | exact (IH Hl Hpl)].
Qed.

Lemma scan_once_encode (v : json) : json_ok v = true -> reads_encoded v.
Proof.
  induction v as [|b|n|x|s|l IH|d IH] using json_ind;
    intros Hok indent level fuel rest Hfuel Hrest.
  - destruct fuel as [|fuel]; [simpl in Hfuel; lia | reflexivity].
  - destruct b; (destruct fuel as [|fuel]; [simpl in Hfuel; lia | reflexivity]).
  - cbn [encode] in *.
    destruct fuel as [|fuel].
    { destruct (match_number_start _ _ _ _ _ (match_number_int_repr n)) as [c [r [He _]]].
      rewrite He in Hfuel. simpl in Hfuel. lia. }
    rewrite (scan_once_number fuel _ rest _ _ _ (match_number_int_repr n) Hrest).
    simpl. now rewrite parse_int_int_repr.
  - cbn [encode json_ok] in *.
    destruct (float_ok_floatstr x Hok) as [Hr|[[-> He]|[[-> He]|[-> He]]]];
      [|rewrite He in *;
        (destruct fuel as [|fuel]; [simpl in Hfuel; lia | reflexivity])..].
    apply reads_back_inv in Hr.
    destruct Hr as [i [f [e [Hm [Hfe Hx]]]]].
    destruct fuel as [|fuel].
    { destruct (match_number_start _ _ _ _ _ Hm) as [c [r [He _]]].
      rewrite He in Hfuel. simpl in Hfuel. lia. }
    rewrite (scan_once_number fuel _ rest _ _ _ Hm Hrest), Hfe, Hx. reflexivity.
  - cbn [encode] in *.
    destruct fuel as [|fuel]; [unfold encode_string in Hfuel; simpl in Hfuel; lia|].
    apply scan_once_string.
  - cbn [json_ok] in Hok. pose proof (forallb_Forall_and _ _ _ Hok IH) as Hall.
    destruct l as [|x l].
    + destruct fuel as [|fuel]; [simpl in Hfuel; lia | reflexivity].
    + rewrite encode_array in *. cbn [String.length] in Hfuel.
      rewrite !length_append in Hfuel. change (String.length "]") with 1%nat in Hfuel.
      destruct fuel as [|fuel]; [lia|].
      change (String "[" ?u ++ rest) with (String "[" (u ++ rest)).
      rewrite !append_assoc.
      inversion Hall as [|x' l' [Hokx _] _]; subst.
      destruct (encode_start x indent (S level) Hokx) as [c [r [He [Hws Hc]]]].
      assert (Htext : exists r',
                 String.concat (item_separator indent (S level))
                   (map (encode indent (S level)) (x :: l))
                 ++ newline_indent indent level ++ "]" ++ rest = String c r').
      { cbn [map]. destruct (map (encode indent (S level)) l) as [|z zs].
        - cbn [String.concat]. rewrite He. eexists. reflexivity.
        - rewrite concat_cons2, append_assoc, He. eexists. reflexivity. }
      destruct Htext as [r' Htext].
      eapply scan_once_array_values.
      * rewrite skip_ws_newline_indent, Htext. now apply skip_ws_start.
      * exact Hc.
      * rewrite <- Htext. apply array_values_encode; [congruence | exact Hall | lia].
  - cbn [json_ok] in Hok. apply andb_true_iff in Hok as [Hkeys Hok].
    pose proof (forallb_Forall_and _ _ _ Hok IH) as Hall.
    destruct d as [|kv d].
    + destruct fuel as [|fuel]; [simpl in Hfuel; lia | reflexivity].
    + rewrite encode_object in *. cbn [String.length] in Hfuel.
      rewrite !length_append in Hfuel. change (String.length "}") with 1%nat in Hfuel.
      destruct fuel as [|fuel]; [lia|].
      change (String "{" ?u ++ rest) with (String "{" (u ++ rest)).
      rewrite !append_assoc.
      rewrite <- (dict_of_pairs_distinct (kv :: d) Hkeys) at 2.
      eapply scan_once_object_pairs.
      * rewrite skip_ws_newline_indent, pairs_text_start. reflexivity.
      * apply object_pairs_encode; [congruence | exact Hall | lia].
Qed.

(** [json.loads] gives back what [json.dumps] was given. *)
Lemma json_loads_dumps (obj : json) (indent : nat) :
  json_ok obj = true -> json_loads (json_dumps obj indent) = Some obj.
Proof.
  intros Hok. unfold json_loads, json_dumps.
  rewrite <- (append_nil_r (encode indent 0%nat obj)) at 2.
  rewrite skip_ws_encode by exact Hok.
  rewrite (scan_once_encode obj Hok indent 0%nat _ ""); [reflexivity | lia | exact I].
Qed.

(** ** Binary64 arithmetic *)

Lemma fexp_eq (x : Z) : fexp prec emax x = Z.max (x - 53) (-1074).
Proof. reflexivity. Qed.

Lemma digits2_pos_size (p : positive) : digits2_pos p = Pos.size p.
Proof. induction p as [p IH|p IH|]; simpl; congruence. Qed.

Lemma Zdigits2_log2 (m : Z) : 0 < m -> Zdigits2 m = Z.log2 m + 1.
Proof.
  destruct m as [|p|p]; try lia. intros _. simpl Zdigits2.
  rewrite digits2_pos_size. destruct p; simpl; lia.
Qed.

Lemma Zdigits2_bounds (m : Z) :
  0 < m -> 2 ^ (Zdigits2 m - 1) <= m < 2 ^ Zdigits2 m.
Proof.
  intros Hm. rewrite (Zdigits2_log2 m Hm).
  replace (Z.log2 m + 1 - 1) with (Z.log2 m) by lia.
  apply (Z.log2_spec m Hm).
Qed.

Lemma Zdigits2_unique (m k : Z) :
  2 ^ (k - 1) <= m < 2 ^ k -> 1 <= k -> Zdigits2 m = k.
Proof.
  intros Hm Hk.
  assert (0 < m) by (assert (0 < 2 ^ (k - 1)) by (apply Z.pow_pos_nonneg; lia); lia).
  rewrite (Zdigits2_log2 m) by assumption.
  rewrite (Z.log2_unique m (k - 1)); [lia | lia |].
  replace (Z.succ (k - 1)) with k by lia. exact Hm.
Qed.

Lemma Zdigits2_nonneg (m : Z) : 0 <= Zdigits2 m.
Proof. destruct m; simpl; lia. Qed.

Lemma Zdigits2_pos (m : Z) : 0 < m -> 1 <= Zdigits2 m.
Proof. intros Hm. rewrite (Zdigits2_log2 m Hm). pose proof (Z.log2_nonneg m). lia. Qed.

Lemma Zdigits2_shiftl (m j : Z) :
  0 < m -> 0 <= j -> Zdigits2 (m * 2 ^ j) = Zdigits2 m + j.
Proof.
  intros Hm Hj. pose proof (Zdigits2_bounds m Hm) as [Hlo Hhi].
  pose proof (Zdigits2_pos m Hm).
  assert (Hp : 0 < 2 ^ j) by (apply Z.pow_pos_nonneg; lia).
  apply Zdigits2_unique; [|lia].
  replace (Zdigits2 m + j - 1) with (Zdigits2 m - 1 + j) by lia.
  rewrite !Z.pow_add_r by lia. split; nia.
Qed.

Lemma Zdigits2_shiftr (m n : Z) :
  0 <= m -> 0 <= n -> 0 < Z.shiftr m n -> Zdigits2 (Z.shiftr m n) = Zdigits2 m - n.
Proof.
  intros Hm Hn Hs.
  assert (Hm' : 0 < m).
  { destruct (Z.eq_dec m 0) as [->|]; [rewrite Z.shiftr_0_l in Hs; lia | lia]. }
  rewrite (Zdigits2_log2 _ Hs), (Zdigits2_log2 _ Hm'), (Z.log2_shiftr m n Hm').
  assert (Hlog : n <= Z.log2 m).
  { destruct (Z.le_gt_cases n (Z.log2 m)) as [|Hgt]; [assumption|].
    rewrite (Z.shiftr_eq_0 m n) in Hs; lia. }
  lia.
Qed.

(** The mantissa after [shr]. *)
Lemma iter_pos_iter {A : Type} (f : A -> A) (p : positive) (x : A) :
  iter_pos f p x = Pos.iter f x p.
Proof.
  revert x. induction p as [p IH|p IH|]; intros x; simpl.
  - rewrite !IH. now rewrite <- !Pos.iter_swap.
  - now rewrite !IH.
  - reflexivity.
Qed.

Lemma shr_1_m (mrs : shr_record) :
  0 <= shr_m mrs -> shr_m (shr_1 mrs) = Z.div2 (shr_m mrs) /\ 0 <= shr_m (shr_1 mrs).
Proof.
  destruct mrs as [m r s]. simpl. destruct m as [|[p|p|]|p]; simpl; lia.
Qed.

Lemma shr_m_iter (mrs : shr_record) (p : positive) :
  0 <= shr_m mrs ->
  shr_m (Pos.iter shr_1 mrs p) = Pos.iter Z.div2 (shr_m mrs) p
  /\ 0 <= shr_m (Pos.iter shr_1 mrs p).
Proof.
  intros Hm. induction p as [|p [IH1 IH2]] using Pos.peano_ind.
  - simpl. now apply shr_1_m.
  - rewrite !Pos.iter_succ. destruct (shr_1_m _ IH2) as [H1 H2].
    split; [now rewrite H1, IH1 | exact H2].
Qed.

Lemma shr_m_shiftr (mrs : shr_record) (e n : Z) :
  0 <= shr_m mrs -> 0 <= n ->
  shr_m (fst (shr mrs e n)) = Z.shiftr (shr_m mrs) n /\ snd (shr mrs e n) = e + n.
Proof.
  intros Hm Hn. destruct n as [|p|p]; try lia; simpl.
  - split; [reflexivity | lia].
  - split; [|reflexivity]. rewrite iter_pos_iter.
    apply (shr_m_iter mrs p Hm).
Qed.

Lemma shr_record_of_loc_m (m : Z) (l : SpecFloat.location) : shr_m (shr_record_of_loc m l) = m.
Proof. destruct l as [|[]]; reflexivity. Qed.

Lemma round_nearest_even_cases (m : Z) (l : SpecFloat.location) :
  round_nearest_even m l = m \/ round_nearest_even m l = m + 1.
Proof.
  destruct l as [|[]]; simpl; auto. destruct (Z.even m); auto.
Qed.

(** [binary_round_aux] returns a float of the format when the mantissa it is
    given is not too short for its exponent. *)
Lemma binary_round_aux_valid (sx : bool) (mx ex : Z) (lx : SpecFloat.location) :
  0 <= mx ->
  ex <= fexp prec emax (Zdigits2 mx + ex) ->
  valid_binary prec emax (binary_round_aux prec emax sx mx ex lx) = true.
Proof.
  intros Hmx Hex. unfold binary_round_aux, shr_fexp.
  set (n1 := fexp prec emax (Zdigits2 mx + ex) - ex).
  assert (Hn1 : 0 <= n1) by (unfold n1; lia).
  pose proof (shr_m_shiftr (shr_record_of_loc mx lx) ex n1) as Hs1.
  rewrite shr_record_of_loc_m in Hs1. specialize (Hs1 Hmx Hn1).
  destruct (shr (shr_record_of_loc mx lx) ex n1) as [mrs1 e1]. simpl in Hs1.
  destruct Hs1 as [Hm1 He1].
  set (m1 := shr_m mrs1) in *.
  assert (Hm1pos : 0 <= m1) by (rewrite Hm1; apply Z.shiftr_nonneg; exact Hmx).
  set (m2 := round_nearest_even m1 (loc_of_shr_record mrs1)).
  assert (Hm2 : m2 = m1 \/ m2 = m1 + 1) by apply round_nearest_even_cases.
  set (n2 := fexp prec emax (Zdigits2 m2 + e1) - e1).
  (* the exponent after the first shift *)
  assert (Hcan1 : (0 < m1 -> fexp prec emax (Zdigits2 m1 + e1) = e1)
                  /\ (m1 = 0 -> e1 = -1074)).
  { split.
    - intros Hpos. rewrite Hm1 in Hpos |- *. rewrite Zdigits2_shiftr by assumption.
      subst e1. replace (Zdigits2 mx - n1 + (ex + n1)) with (Zdigits2 mx + ex) by lia.
      unfold n1. lia.
    - intros H0. rewrite Hm1 in H0.
      assert (Hd : Zdigits2 mx <= n1).
      { destruct (Z.eq_dec mx 0) as [->|Hne]; [simpl; lia|].
        apply Z.shiftr_eq_0_iff in H0. destruct H0 as [H0|[_ H0]]; [lia|].
        rewrite Zdigits2_log2 by lia. lia. }
      subst e1. unfold n1 in *. rewrite fexp_eq in *. lia. }
  assert (Hn2 : 0 <= n2).
  { unfold n2. destruct Hcan1 as [Hc1 Hc0]. rewrite fexp_eq in *.
    destruct (Z.eq_dec m1 0) as [H0|Hne].
    - rewrite (Hc0 H0). lia.
    - specialize (Hc1 ltac:(lia)).
      assert (Zdigits2 m1 <= Zdigits2 m2).
      { destruct Hm2 as [->| ->]; [lia|].
        rewrite !Zdigits2_log2 by lia. pose proof (Z.log2_le_mono m1 (m1 + 1)). lia. }
      lia. }
  pose proof (shr_m_shiftr (shr_record_of_loc m2 loc_Exact) e1 n2) as Hs2.
  rewrite shr_record_of_loc_m in Hs2.
  assert (Hm2pos : 0 <= m2) by (destruct Hm2; lia).
  specialize (Hs2 Hm2pos Hn2).
  destruct (shr (shr_record_of_loc m2 loc_Exact) e1 n2) as [mrs2 e2]. simpl in Hs2.
  destruct Hs2 as [Hm3 He2].
  destruct (shr_m mrs2) as [|m3|m3] eqn:Hm3'; try reflexivity.
  destruct (Z.leb_spec e2 (emax - prec)) as [Hle|Hgt]; [|reflexivity].
  simpl. unfold bounded, canonical_mantissa.
  apply andb_true_iff. split; [|now apply Z.leb_le].
  apply Z.eqb_eq.
  change (Zpos (digits2_pos m3)) with (Zdigits2 (Zpos m3)).
  rewrite Hm3. 
  assert (Hpos3 : 0 < Z.shiftr m2 n2) by lia.
  rewrite Zdigits2_shiftr by assumption.
  subst e2. replace (Zdigits2 m2 - n2 + (e1 + n2)) with (Zdigits2 m2 + e1) by lia.
  unfold n2. lia.
Qed.

Lemma SFdiv_core_binary_pre (M T : positive) :
  let '(q, e', _) := SFdiv_core_binary prec emax (Zpos M) 0 (Zpos T) 0 in
  0 <= q /\ e' <= fexp prec emax (Zdigits2 q + e').
Proof.
  unfold SFdiv_core_binary.
  set (d1 := Zdigits2 (Zpos M)). set (d2 := Zdigits2 (Zpos T)).
  set (e' := Z.min (fexp prec emax (d1 + 0 - (d2 + 0))) (0 - 0)).
  set (s := 0 - 0 - e').
  set (m' := match s with Zpos _ => Z.shiftl (Zpos M) s | Z0 => Zpos M | Zneg _ => 0 end).
  assert (Hs : 0 <= s) by (unfold s, e'; lia).
  assert (Hm' : m' = Zpos M * 2 ^ s).
  { unfold m'. clearbody s. clear m'. destruct s as [|p|p]; try lia.
    now rewrite Z.shiftl_mul_pow2 by lia. }
  clearbody m'.
  pose proof (Z.div_eucl_eq m' (Zpos T) ltac:(lia)) as Heq.
  pose proof (Z.mod_pos_bound m' (Zpos T) ltac:(lia)) as Hmod.
  unfold Z.modulo in Hmod.
  destruct (Z.div_eucl m' (Zpos T)) as [q r] eqn:Hqr.
  assert (H2s : 0 < 2 ^ s) by (apply Z.pow_pos_nonneg; lia).
  assert (Hq : 0 <= q) by nia.
  split; [exact Hq|].
  rewrite fexp_eq.
  destruct (Z.le_gt_cases (d1 + 0 - (d2 + 0) - 53) (-1074)) as [Hsmall|Hbig].
  { assert (e' <= -1074) by (unfold e'; rewrite fexp_eq; lia). lia. }
  (* the quotient has at least 53 digits *)
  assert (He' : e' <= d1 - d2 - 53) by (unfold e'; rewrite fexp_eq; lia).
  pose proof (Zdigits2_bounds (Zpos M) ltac:(lia)) as [HM _].
  pose proof (Zdigits2_bounds (Zpos T) ltac:(lia)) as [_ HT].
  fold d1 in HM. fold d2 in HT.
  assert (Hd1 : 1 <= d1) by (apply Zdigits2_pos; lia).
  assert (Hd2 : 1 <= d2) by (apply Zdigits2_pos; lia).
  assert (Hq52 : 2 ^ 52 <= q).
  { assert (Hle : Zpos T * 2 ^ 52 <= m').
    { rewrite Hm'.
      assert (Hpow : 2 ^ d2 * 2 ^ 52 <= 2 ^ (d1 - 1) * 2 ^ s).
      { rewrite <- !Z.pow_add_r by lia. apply Z.pow_le_mono_r; unfold s; lia. }
      assert (0 < 2 ^ 52) by reflexivity. nia. }
    assert (0 < 2 ^ 52) by reflexivity. nia. }
  assert (Hdq : 53 <= Zdigits2 q).
  { assert (0 < 2 ^ 52) by reflexivity.
    rewrite Zdigits2_log2 by lia.
    pose proof (Z.log2_le_mono (2 ^ 52) q Hq52) as Hl.
    rewrite Z.log2_pow2 in Hl by lia. lia. }
  lia.
Qed.

(** [strtod] returns a float of the format. *)
Lemma strtod_valid (s : bool) (M E : Z) :
  valid_binary prec emax (strtod s M E) = true.
Proof.
  unfold strtod. destruct M as [|m|m]; try reflexivity.
  destruct (Z.leb_spec 0 E) as [HE|HE].
  - unfold binary_round.
    set (mx := (m * Z.to_pos (10 ^ E))%positive).
    unfold shl_align.
    destruct (fexp prec emax (Zpos (digits2_pos mx) + 0) - 0) as [|d|d] eqn:Hd.
    + apply binary_round_aux_valid; [lia|].
      change (Zpos (digits2_pos mx)) with (Zdigits2 (Zpos mx)) in Hd. lia.
    + apply binary_round_aux_valid; [lia|].
      change (Zpos (digits2_pos mx)) with (Zdigits2 (Zpos mx)) in Hd. lia.
    + apply binary_round_aux_valid; [lia|].
      change (Zpos (digits2_pos mx)) with (Zdigits2 (Zpos mx)) in Hd.
      rewrite Pos.iter_swap_gen with (f := Zpos) (h := Z.mul 2) by reflexivity.
      assert (Hit : Pos.iter (Z.mul 2) (Zpos mx) d = Zpos mx * 2 ^ Zpos d).
      { clear. induction d as [|d IH] using Pos.peano_ind.
        - simpl. lia.
        - rewrite Pos.iter_succ, IH, Pos2Z.inj_succ, Z.pow_succ_r by lia. lia. }
      rewrite Hit, Zdigits2_shiftl by lia.
      change (Zpos (digits2_pos mx)) with (Zdigits2 (Zpos mx)).
      rewrite !fexp_eq in *. lia.
  - unfold SFdiv.
    pose proof (SFdiv_core_binary_pre m (Z.to_pos (10 ^ (- E)))) as Hpre.
    destruct (SFdiv_core_binary prec emax (Zpos m) 0 (Zpos (Z.to_pos (10 ^ (- E)))) 0)
      as [[q e'] l].
    destruct Hpre as [Hq He']. now apply binary_round_aux_valid.
Qed.

Lemma shr_1_double (a : positive) :
  shr_1 {| shr_m := Zpos a~0; shr_r := false; shr_s := false |}
  = {| shr_m := Zpos a; shr_r := false; shr_s := false |}.
Proof. reflexivity. Qed.

Lemma shr_exact_iter (p a : positive) :
  Pos.iter shr_1 {| shr_m := Zpos a * 2 ^ Zpos p; shr_r := false; shr_s := false |} p
  = {| shr_m := Zpos a; shr_r := false; shr_s := false |}.
Proof.
  revert a. induction p as [|p IH] using Pos.peano_ind; intros a.
  - cbn [Pos.iter]. replace (Zpos a * 2 ^ 1) with (Zpos a~0) by (rewrite Z.pow_1_r; lia).
    apply shr_1_double.
  - rewrite Pos.iter_succ.
    replace (Zpos a * 2 ^ Zpos (Pos.succ p)) with (Zpos a~0 * 2 ^ Zpos p).
    + rewrite IH. apply shr_1_double.
    + rewrite Pos2Z.inj_succ, Z.pow_succ_r by lia. lia.
Qed.

(** A mantissa that is the mantissa of a float of the format, shifted to
    the left, is rounded to that float. *)
Lemma binary_round_aux_exact (sx : bool) (m : positive) (e e' : Z) :
  bounded prec emax m e = true ->
  e' <= e ->
  binary_round_aux prec emax sx (Zpos m * 2 ^ (e - e')) e' loc_Exact = S754_finite sx m e.
Proof.
  unfold bounded, canonical_mantissa. rewrite andb_true_iff, Z.eqb_eq, Z.leb_le.
  change (Zpos (digits2_pos m)) with (Zdigits2 (Zpos m)).
  intros [Hcan Hmax] He.
  unfold binary_round_aux, shr_fexp.
  rewrite Zdigits2_shiftl by lia.
  replace (Zdigits2 (Zpos m) + (e - e') + e') with (Zdigits2 (Zpos m) + e) by lia.
  rewrite Hcan.
  assert (Hshr : shr (shr_record_of_loc (Zpos m * 2 ^ (e - e')) loc_Exact) e' (e - e')
                 = ({| shr_m := Zpos m; shr_r := false; shr_s := false |}, e)).
  { destruct (e - e') as [|p|p] eqn:Hj; try lia.
    - simpl. rewrite Pos.mul_1_r. f_equal. lia.
    - unfold shr. rewrite iter_pos_iter. cbn [shr_record_of_loc].
      rewrite shr_exact_iter. f_equal. lia. }
  rewrite Hshr. cbn [shr_m loc_of_shr_record round_nearest_even].
  rewrite Hcan, Z.sub_diag. cbn [shr shr_record_of_loc shr_m].
  destruct (Z.leb_spec e (emax - prec)); [reflexivity | lia].
Qed.

Lemma bounded_inv (m : positive) (e : Z) :
  bounded prec emax m e = true ->
  fexp prec emax (Zdigits2 (Zpos m) + e) = e /\ e <= emax - prec.
Proof.
  unfold bounded, canonical_mantissa. rewrite andb_true_iff, Z.eqb_eq, Z.leb_le. tauto.
Qed.

(** [strtod] on the exact decimal value of a float of the format gives that
    float: for an exponent that is not negative the value is an integer. *)
Lemma strtod_exact_integer (s : bool) (m : positive) (e : Z) :
  bounded prec emax m e = true -> 0 <= e ->
  strtod s (Zpos m * 2 ^ e) 0 = S754_finite s m e.
Proof.
  intros Hb He. destruct (bounded_inv m e Hb) as [Hcan Hmax].
  assert (H2 : 0 < 2 ^ e) by (apply Z.pow_pos_nonneg; lia).
  destruct (Zpos m * 2 ^ e) as [|mx|mx] eqn:Hmx; try lia.
  unfold strtod. change (0 <=? 0) with true. cbv iota.
  change (Z.to_pos (10 ^ 0)) with 1%positive. rewrite Pos.mul_1_r.
  unfold binary_round, shl_align.
  change (Zpos (digits2_pos mx)) with (Zdigits2 (Zpos mx)).
  rewrite <- Hmx, Zdigits2_shiftl, Z.add_0_r, Hcan, Z.sub_0_r by lia.
  assert (Hal : (match e with Zneg d => (Pos.iter xO mx d, e) | _ => (mx, 0) end) = (mx, 0))
    by (destruct e; try reflexivity; lia).
  rewrite Hal. rewrite <- Hmx.
  replace e with (e - 0) at 1 by lia.
  apply binary_round_aux_exact; [exact Hb | exact He].
Qed.

Lemma Zdigits2_mul_le (a b : Z) :
  0 < a -> 0 < b -> Zdigits2 (a * b) <= Zdigits2 a + Zdigits2 b.
Proof.
  intros Ha Hb.
  pose proof (Zdigits2_bounds a Ha) as [_ Ha2].
  pose proof (Zdigits2_bounds b Hb) as [_ Hb2].
  pose proof (Zdigits2_bounds (a * b) ltac:(nia)) as [Hab _].
  pose proof (Zdigits2_pos a Ha). pose proof (Zdigits2_pos b Hb).
  pose proof (Zdigits2_pos (a * b) ltac:(nia)).
  assert (Hlt : 2 ^ (Zdigits2 (a * b) - 1) < 2 ^ (Zdigits2 a + Zdigits2 b)).
  { rewrite Z.pow_add_r by lia. nia. }
  apply Z.pow_lt_mono_r_iff in Hlt; lia.
Qed.

Lemma pow10_split (k : Z) : 0 <= k -> 10 ^ k = 5 ^ k * 2 ^ k.
Proof. intros Hk. now rewrite <- Z.pow_mul_l. Qed.

(** For a negative exponent the value is [m * 5^(-e) / 10^(-e)]. *)
Lemma strtod_exact_fraction (s : bool) (m : positive) (e : Z) :
  bounded prec emax m e = true -> e < 0 ->
  strtod s (Zpos m * 5 ^ (- e)) e = S754_finite s m e.
Proof.
  intros Hb He. destruct (bounded_inv m e Hb) as [Hcan Hmax].
  set (k := - e). assert (Hk : 0 < k) by (unfold k; lia).
  assert (H5 : 0 < 5 ^ k) by (apply Z.pow_pos_nonneg; lia).
  assert (H2 : 0 < 2 ^ k) by (apply Z.pow_pos_nonneg; lia).
  assert (H10 : 10 ^ k = 5 ^ k * 2 ^ k) by (apply pow10_split; lia).
  destruct (Zpos m * 5 ^ k) as [|M|M] eqn:HM; try lia.
  unfold strtod. destruct (Z.leb_spec 0 e) as [|_]; [lia|]. fold k.
  destruct (10 ^ k) as [|T|T] eqn:HT; try lia. cbn [Z.to_pos].
  unfold SFdiv, SFdiv_core_binary.
  set (d1 := Zdigits2 (Zpos M)). set (d2 := Zdigits2 (Zpos T)).
  assert (Hd2 : d2 = Zdigits2 (5 ^ k) + k).
  { unfold d2. rewrite H10. apply Zdigits2_shiftl; lia. }
  assert (Hd1 : d1 <= Zdigits2 (Zpos m) + Zdigits2 (5 ^ k)).
  { unfold d1. rewrite <- HM. apply Zdigits2_mul_le; lia. }
  set (e' := Z.min (fexp prec emax (d1 + 0 - (d2 + 0))) (0 - 0)).
  assert (Hdm : Zdigits2 (Zpos m) <= 53 /\ -1074 <= e) by (rewrite fexp_eq in Hcan; lia).
  assert (He' : e' <= e) by (unfold e'; rewrite fexp_eq; lia).
  set (sh := 0 - 0 - e').
  assert (Hsh : 0 < sh) by (unfold sh; lia).
  destruct sh as [|p|p] eqn:Hp; try lia. rewrite <- Hp.
  rewrite Z.shiftl_mul_pow2 by lia.
  assert (Hq : Z.div_eucl (Zpos M * 2 ^ sh) (Zpos T) = (Zpos m * 2 ^ (e - e'), 0)).
  { assert (Hval : Zpos M * 2 ^ sh = Zpos T * (Zpos m * 2 ^ (e - e')) + 0).
    { rewrite <- HM, H10. replace sh with (k + (e - e')) by (unfold sh, k; lia).
      rewrite Z.pow_add_r by lia. ring. }
    pose proof (Z.div_eucl_eq (Zpos M * 2 ^ sh) (Zpos T) ltac:(lia)) as Heq.
    pose proof (Z.mod_pos_bound (Zpos M * 2 ^ sh) (Zpos T) ltac:(lia)) as Hmod.
    unfold Z.modulo in Hmod.
    destruct (Z.div_eucl (Zpos M * 2 ^ sh) (Zpos T)) as [q r].
    assert (Hqq : q = Zpos m * 2 ^ (e - e')) by nia.
    subst q. f_equal. lia. }
  rewrite Hq. unfold new_location.
  assert (Hloc : (if Z.even (Zpos T) then new_location_even (Zpos T) else new_location_odd (Zpos T)) 0
                 = loc_Exact) by (destruct (Z.even (Zpos T)); reflexivity).
  rewrite Hloc. rewrite xorb_false_r.
  apply binary_round_aux_exact; [exact Hb | exact He'].
Qed.

(** ** [float.__repr__] reads back *)

Lemma repr_with_reads_back (sign : string) (x : spec_float) (m : positive) (e decpt n : Z)
    (t : string) :
  repr_with sign x m e decpt n = Some t -> reads_back x t = true.
Proof.
  unfold repr_with.
  set (p := n - decpt).
  set (num := Zpos m * 2 ^ Z.max e 0 * 10 ^ Z.max p 0).
  set (den := 2 ^ Z.max (- e) 0 * 10 ^ Z.max (- p) 0).
  set (tlo := sign ++ format_repr (num / den) (- p)).
  set (thi := sign ++ format_repr (num / den + 1) (- p)).
  destruct (reads_back x tlo) eqn:Hlo;
    destruct (negb (num mod den =? 0) && reads_back x thi) eqn:Hhi;
    try discriminate.
  - apply andb_true_iff in Hhi as [_ Hhi].
    destruct (2 * (num mod den) ?= den); [destruct (Z.even (num / den))| |];
      intros [= <-]; assumption.
  - intros [= <-]; assumption.
  - apply andb_true_iff in Hhi as [_ Hhi]. intros [= <-]; assumption.
Qed.

Lemma repr_search_reads_back (sign : string) (x : spec_float) (m : positive) (e decpt : Z)
    (fuel : nat) (n : Z) (t : string) :
  repr_search sign x m e decpt fuel n = Some t -> reads_back x t = true.
Proof.
  revert n. induction fuel as [|fuel IH]; intros n; simpl; [discriminate|].
  destruct (repr_with sign x m e decpt n) as [t'|] eqn:Hw.
  - intros [= <-]. eapply repr_with_reads_back, Hw.
  - apply IH.
Qed.

Lemma digits_of_cons (k : Z) : exists c r, digits_of k = String c r /\ is_digit c = true.
Proof.
  destruct (digits_of_shape k) as [H0|[c [r [Hk [Hd _]]]]].
  - exists "0"%char, "". split; [exact H0 | reflexivity].
  - exists c, r. split; [exact Hk | exact Hd].
Qed.

Lemma spec_float_eqb_refl (x : spec_float) : spec_float_eqb x x = true.
Proof.
  destruct x as [s|s| |s m e]; simpl; try reflexivity; try apply Bool.eqb_reflx.
  now rewrite Bool.eqb_reflx, Pos.eqb_refl, Z.eqb_refl.
Qed.

(** The scanner reads [sign ++ digits ++ "e" ++ exponent] as the decimal
    with these digits and this exponent. *)
Lemma reads_back_exponent_form (s : bool) (D dexp : Z) (x : spec_float) :
  0 <= D ->
  strtod s D dexp = x ->
  reads_back x ((if s then "-" else "") ++ digits_of D ++ "e"
                ++ (if dexp <? 0 then "-" ++ digits_of (- dexp) else digits_of dexp))
  = true.
Proof.
  intros HD Hx. unfold reads_back, match_number.
  set (xs := if dexp <? 0 then "-" ++ digits_of (- dexp) else digits_of dexp).
  assert (Hint : match_integer ((if s then "-" else "") ++ digits_of D)
                 = Some ((if s then "-" else "") ++ digits_of D, "")).
  { destruct s; [apply match_integer_minus_digits | apply match_integer_digits]. }
  rewrite <- append_assoc.
  rewrite (match_integer_app _ ("e" ++ xs) _ _ (eq_refl : starts_outside is_digit ("e" ++ xs)) Hint).
  cbn [append match_frac]. change (Ascii.eqb "e" ".") with false. cbv iota.
  assert (Hexp : match_exp (String "e" xs) = (String "e" xs, "")).
  { unfold match_exp. change (Ascii.eqb "e" "e" || Ascii.eqb "e" "E") with true. cbv iota.
    unfold xs. destruct (dexp <? 0).
    - cbn [append match_sign]. change (Ascii.eqb "-" "-" || Ascii.eqb "-" "+") with true.
      cbv iota. rewrite digits_of_span.
      destruct (digits_of_cons (- dexp)) as [c [r [-> _]]]. reflexivity.
    - destruct (digits_of_cons dexp) as [c [r [Hk Hd]]].
      assert (Hsg : match_sign (digits_of dexp) = ("", digits_of dexp)).
      { rewrite Hk. unfold match_sign.
        destruct (Ascii.eqb_spec c "-") as [->|_]; [discriminate|].
        destruct (Ascii.eqb_spec c "+") as [->|_]; [discriminate | reflexivity]. }
      rewrite Hsg, digits_of_span. rewrite Hk. reflexivity. }
  rewrite Hexp. cbn [String.eqb negb andb].
  unfold parse_float.
  assert (Hminus : match_minus ((if s then "-" else "") ++ digits_of D)
                   = ((if s then "-" else ""), digits_of D)).
  { destruct s; [reflexivity|]. destruct (digits_of_cons D) as [c [r [-> Hd]]].
    now apply match_minus_digit. }
  rewrite Hminus. rewrite append_nil_r, digits_val_digits_of by exact HD.
  assert (Hsign : negb (String.eqb (if s then "-" else "") "") = s) by now destruct s.
  rewrite Hsign. cbn [String.length Z.of_nat]. rewrite Z.sub_0_r.
  assert (Hx' : (let (xsg, xds) := match_sign xs in
                 if String.eqb xsg "-" then - digits_val xds else digits_val xds) = dexp).
  { unfold xs. destruct (Z.ltb_spec dexp 0) as [Hneg|Hpos].
    - cbn [append match_sign]. change (Ascii.eqb "-" "-" || Ascii.eqb "-" "+") with true.
      cbv iota. cbn [String.eqb Ascii.eqb Bool.eqb]. rewrite digits_val_digits_of; lia.
    - destruct (digits_of_cons dexp) as [c [r [Hk Hd]]].
      assert (Hsg : match_sign (digits_of dexp) = ("", digits_of dexp)).
      { rewrite Hk. unfold match_sign.
        destruct (Ascii.eqb_spec c "-") as [->|_]; [discriminate|].
        destruct (Ascii.eqb_spec c "+") as [->|_]; [discriminate | reflexivity]. }
      rewrite Hsg. cbn [String.eqb]. now apply digits_val_digits_of. }
  rewrite Hx', Hx. apply spec_float_eqb_refl.
Qed.

Lemma float_ok_finite (s : bool) (m : positive) (e : Z) :
  bounded prec emax m e = true -> float_ok (S754_finite s m e) = true.
Proof.
  intros Hb. unfold float_ok, float_repr.
  set (sign := if s then "-" else "").
  set (decpt := decpt_from 640 (-323) (Zpos m * 2 ^ Z.max e 0) (2 ^ Z.max (- e) 0)).
  destruct (repr_search sign (S754_finite s m e) m e decpt 17 1) as [t|] eqn:Hsearch.
  - exact (repr_search_reads_back _ _ _ _ _ _ _ _ Hsearch).
  - unfold exact_decimal. destruct (Z.leb_spec 0 e) as [He|He].
    + assert (H2 : 0 < 2 ^ e) by (apply Z.pow_pos_nonneg; lia).
      pose proof (reads_back_exponent_form s (Zpos m * 2 ^ e) 0
                    (S754_finite s m e) ltac:(lia)
                    (strtod_exact_integer s m e Hb He)) as H.
      exact H.
    + assert (H5 : 0 < 5 ^ (- e)) by (apply Z.pow_pos_nonneg; lia).
      pose proof (reads_back_exponent_form s (Zpos m * 5 ^ (- e)) e
                    (S754_finite s m e) ltac:(lia)
                    (strtod_exact_fraction s m e Hb He)) as H.
      rewrite (proj2 (Z.ltb_lt e 0) He) in H.
      exact H.
Qed.

(** The text of a float of the format is read back as the float. *)
Lemma float_ok_valid (x : spec_float) :
  valid_binary prec emax x = true -> float_ok x = true.
Proof.
  destruct x as [s|s| |s m e]; intros Hv.
  - destruct s; vm_compute; reflexivity.
  - reflexivity.
  - reflexivity.
  - now apply float_ok_finite.
Qed.

(** ** [export_json] *)

Lemma dict_set_keys {A : Type} (d : dict A) (k : string) (v : A) :
  map fst (dict_set d k v)
  = if existsb (String.eqb k) (map fst d) then map fst d else (map fst d ++ [k])%list.
Proof.
  induction d as [|[k' v'] d IH]; simpl; [reflexivity|].
  rewrite (String.eqb_sym k k').
  destruct (String.eqb k' k); simpl; [reflexivity|].
  rewrite IH. now destruct (existsb (String.eqb k) (map fst d)).
Qed.

Lemma distinct_snoc (l : list string) (k : string) :
  distinct l = true -> existsb (String.eqb k) l = false -> distinct (l ++ [k]) = true.
Proof.
  induction l as [|a l IH]; simpl; [reflexivity|].
  rewrite andb_true_iff, negb_true_iff, orb_false_iff. intros [Ha Hl] [Hk Hkl].
  rewrite existsb_app, Ha, (IH Hl Hkl). simpl.
  now rewrite String.eqb_sym, Hk.
Qed.

Lemma dict_set_distinct {A : Type} (d : dict A) (k : string) (v : A) :
  distinct (map fst d) = true -> distinct (map fst (dict_set d k v)) = true.
Proof.
  intros Hd. rewrite dict_set_keys.
  destruct (existsb (String.eqb k) (map fst d)) eqn:Hk; [exact Hd|].
  now apply distinct_snoc.
Qed.

Lemma by_category_distinct (iter_order : list string) (db : table) :
  distinct (map fst (by_category (get_stats iter_order db))) = true.
Proof.
  unfold get_stats. cbn [by_category].
  assert (H : distinct (map fst (@nil (string * Z))) = true) by reflexivity.
  revert H. generalize (@nil (string * Z)).
  induction iter_order as [|c order IH]; intros d Hd; simpl; [exact Hd|].
  apply IH. now apply dict_set_distinct.
Qed.

Lemma json_ok_issue (r : Issue) : json_ok (issue_json r) = true.
Proof. reflexivity. Qed.

Lemma json_ok_stats (st : Stats) :
  pynum_ok (average_votes st) = true ->
  distinct (map fst (by_category st)) = true ->
  json_ok (stats_json st) = true.
Proof.
  intros Havg Hkeys. unfold stats_json. cbn [json_ok map fst snd forallb distinct existsb].
  assert (Hv : json_ok (pynum_json (average_votes st)) = true).
  { destruct (average_votes st); [reflexivity | exact Havg]. }
  assert (Hk : map fst (map (fun kv : string * Z => (fst kv, JInt (snd kv))) (by_category st))
               = map fst (by_category st)).
  { rewrite map_map. apply map_ext. reflexivity. }
  rewrite Hv, Hk, Hkeys.
  assert (Hall : forallb (fun kv : string * json => json_ok (snd kv))
                   (map (fun kv : string * Z => (fst kv, JInt (snd kv))) (by_category st))
                 = true).
  { clear. induction (by_category st) as [|kv d IH]; [reflexivity | exact IH]. }
  rewrite Hall. reflexivity.
Qed.

Lemma float_round_valid (x : spec_float) :
  valid_binary prec emax (float_round x 2) = true.
Proof.
  destruct x as [s|s| |s m e]; try reflexivity.
  unfold float_round. change (323 <? 2) with false. cbv iota.
  apply strtod_valid.
Qed.

(** The average of [get_stats] is written as a text that is read back as
    the same number. *)
Lemma average_votes_ok (iter_order : list string) (db : table) :
  pynum_ok (average_votes (get_stats iter_order db)) = true.
Proof.
  unfold get_stats. cbn [average_votes].
  destruct (or_zero (sql_avg_votes db)) as [n|x]; [reflexivity|].
  cbn [py_round pynum_ok]. apply float_ok_valid, float_round_valid.
Qed.

(** C8: for every table, [json.loads] of the document that [export_json]
    returns is a dict whose field "statistics" is the result of [get_stats]
    and whose field "issues" is the result of [get_issues(sort_by="recent")]
    on the same table. *)
Theorem export_json_roundtrip (iter_order : list string) (db : table) :
  exists doc,
    json_loads (export_json iter_order db) = Some (JObject doc) /\
    dict_get "statistics" doc = Some (stats_json (get_stats iter_order db)) /\
    dict_get "issues" doc = Some (JArray (map issue_json (get_issues None "recent" db))).
Proof.
  unfold export_json. eexists. split.
  - apply json_loads_dumps.
    cbn [json_ok map fst snd forallb distinct existsb].
    rewrite (json_ok_stats _ (average_votes_ok iter_order db)
               (by_category_distinct iter_order db)).
    assert (Hall : forallb json_ok (map issue_json (get_issues None "recent" db)) = true).
    { induction (get_issues None "recent" db) as [|r l IH]; [reflexivity|].
      cbn [map forallb]. now rewrite json_ok_issue, IH. }
    rewrite Hall. reflexivity.
  - split; reflexivity.
Qed.

(** The document for the two sample rows, as [json.dumps] lays it out, and
    what [json.loads] makes of it. *)
Example export_json_sample :
  json_loads (export_json CATEGORIES [pothole; streetlight])
  = Some (JObject
            [("statistics",
              JObject
                [("total_issues", JInt 2);
                 ("average_votes", JFloat (S754_finite false 6755399441055744 (-52)));
                 ("by_category",
                  JObject [("infrastructure", JInt 1); ("safety", JInt 1);
                           ("environment", JInt 0); ("community", JInt 0);
                           ("transit", JInt 0)])]);
             ("issues", JArray [issue_json streetlight; issue_json pothole])]).
Proof. vm_compute. reflexivity. Qed.

(** * Further properties *)

(** ** Queries *)

Lemma created_desc_total (a b : Issue) :
  created_desc a b = false -> created_desc b a = true.
Proof.
  unfold created_desc. intros H.
  destruct (String.leb_total (created_at a) (created_at b)) as [H1|H1]; congruence.
Qed.

Lemma created_desc_trans (a b c : Issue) :
  created_desc a b = true -> created_desc b c = true -> created_desc a c = true.
Proof.
  unfold created_desc. intros H1 H2. exact (leb_trans _ _ _ H2 H1).
Qed.

(** X1: with [sort_by = "recent"], whatever the category filter, the rows
    that [get_issues] returns are in non-increasing order of [created_at]:
    every row stands before all rows that are not newer than it. *)
Theorem get_issues_recent_sorted (category : option string) (db : table) :
  StronglySorted (fun a b => String.leb (created_at b) (created_at a) = true)
    (get_issues category "recent" db).
Proof.
  unfold get_issues.
  change (String.eqb "recent" "votes") with false.
  change (String.eqb "recent" "recent") with true. cbv iota.
  apply (sql_order_by_sorted created_desc created_desc_total created_desc_trans).
Qed.

(** X2: without a category, [get_issues] returns every row of the table
    exactly once, whatever [sort_by] is: as many rows as [get_stats] counts
    in [total_issues]. *)
Theorem get_issues_returns_all (iter_order : list string) (sort_by : string) (db : table) :
  Permutation (get_issues None sort_by db) db /\
  Z.of_nat (List.length (get_issues None sort_by db)) = total_issues (get_stats iter_order db).
Proof.
  assert (H : Permutation (get_issues None sort_by db) db)
    by exact (get_issues_perm None sort_by db).
  split; [exact H|].
  unfold get_stats. cbn [total_issues]. unfold sql_count.
  now rewrite (Permutation_length H).
Qed.

(** X3: a [sort_by] other than ["votes"] and ["recent"] is not an error:
    no [ORDER BY] is added, and the rows come as the table has them,
    all of them or those of the category. *)
Theorem get_issues_unknown_sort (wanted : option string) (sort_by : string) (db : table) :
  sort_by <> "votes" -> sort_by <> "recent" ->
  get_issues wanted sort_by db
  = match wanted with
    | Some c => if String.eqb c "" then db else filter (fun r => String.eqb (category r) c) db
    | None => db
    end.
Proof.
  intros Hv Hr. unfold get_issues.
  apply String.eqb_neq in Hv. apply String.eqb_neq in Hr. rewrite Hv, Hr.
  destruct wanted as [c|]; [|reflexivity].
  unfold truthy. now destruct (String.eqb c "").
Qed.

Lemma get_issues_unknown_sort_witness :
  get_issues (Some "safety") "oldest" [pothole; streetlight] = [streetlight] /\
  get_issues None "oldest" [pothole; streetlight] = [pothole; streetlight].
Proof.
  split.
  - apply (get_issues_unknown_sort (Some "safety") "oldest" [pothole; streetlight]);
      intros H; discriminate H.
  - apply (get_issues_unknown_sort None "oldest" [pothole; streetlight]);
      intros H; discriminate H.
Defined.

(** ** Votes *)

Lemma vote_times_S (n : nat) (issue_id : string) (db : table) :
  vote_times (S n) issue_id db = sql_update_votes issue_id (vote_times n issue_id db).
Proof. reflexivity. Qed.

(** X4: [n] calls of [vote_issue] for an issue that has [v] votes leave it
    with [v + n] votes, and the next call returns [v + n + 1]: every call
    counts once. *)
Theorem vote_issue_repeated (n : nat) (issue_id : string) (db : table) (v : Z) :
  sql_select_votes issue_id db = Some v ->
  sql_select_votes issue_id (vote_times n issue_id db) = Some (v + Z.of_nat n) /\
  fst (vote_issue issue_id (vote_times n issue_id db)) = v + Z.of_nat n + 1.
Proof.
  intros Hv.
  assert (H : sql_select_votes issue_id (vote_times n issue_id db) = Some (v + Z.of_nat n)).
  { induction n as [|n IH].
    - simpl. rewrite Hv. f_equal. lia.
    - rewrite vote_times_S, select_votes_update, IH. simpl. f_equal. lia. }
  split; [exact H|].
  unfold vote_issue. cbn [fst]. rewrite select_votes_update, H. simpl. lia.
Qed.

Lemma vote_issue_repeated_witness :
  sql_select_votes "issue_1700000000.25" (vote_times 5 "issue_1700000000.25" [pothole; streetlight])
  = Some (3 + Z.of_nat 5) /\
  fst (vote_issue "issue_1700000000.25"
         (vote_times 5 "issue_1700000000.25" [pothole; streetlight])) = 3 + Z.of_nat 5 + 1.
Proof.
  apply (vote_issue_repeated 5 "issue_1700000000.25" [pothole; streetlight] 3).
  reflexivity.
Defined.

(** X5: a vote for one issue leaves the count of every other issue as it
    was. *)
Theorem vote_issue_other_ids (issue_id other : string) (db : table) :
  other <> issue_id ->
  sql_select_votes other (snd (vote_issue issue_id db)) = sql_select_votes other db.
Proof.
  intros Hne. unfold vote_issue. cbn [snd].
  unfold sql_select_votes, sql_update_votes. f_equal.
  induction db as [|r db IH]; [reflexivity|]. cbn [map find].
  destruct (String.eqb (id r) issue_id) eqn:Hi.
  - apply String.eqb_eq in Hi. cbn [set_votes id].
    destruct (String.eqb (id r) other) eqn:Ho.
    + apply String.eqb_eq in Ho. congruence.
    + exact IH.
  - destruct (String.eqb (id r) other); [reflexivity | exact IH].
Qed.

Lemma vote_issue_other_ids_witness :
  sql_select_votes "issue_1700000100.5"
    (snd (vote_issue "issue_1700000000.25" [pothole; streetlight]))
  = sql_select_votes "issue_1700000100.5" [pothole; streetlight].
Proof.
  apply (vote_issue_other_ids "issue_1700000000.25" "issue_1700000100.5"
           [pothole; streetlight]).
  intros H. discriminate H.
Defined.

(** ** A report and what follows *)

Lemma report_issue_ok (iter_order : list string) (now1 now2 : datetime)
    (title category location : string) (db db' : table) (issue_id : string) :
  report_issue iter_order now1 now2 title category location db = (Ok issue_id, db') ->
  In category CATEGORIES /\
  issue_id = "issue_" ++ timestamp now1 /\
  ~ In issue_id (map id db) /\
  db' = (db ++ [mkIssue issue_id title category location "open" 0 (isoformat now2)])%list.
Proof.
  unfold report_issue.
  destruct (in_CATEGORIES_spec category) as [Hc|Hn]; unfold negb; [|discriminate].
  unfold sql_insert, Issue_new.
  destruct (existsb _ db) eqn:He; [discriminate|].
  intros H. injection H as H1 H2. subst issue_id.
  repeat split; [exact Hc | | now symmetry].
  intros Hin. apply in_map_iff in Hin as [r [Hr Hin]].
  assert (Ht : existsb (fun r0 => String.eqb (id r0)
                 (id (mkIssue ("issue_" ++ timestamp now1) title category location
                        "open" 0 (isoformat now2)))) db = true).
  { apply existsb_exists. exists r. split; [exact Hin|]. now apply String.eqb_eq. }
  congruence.
Qed.

Lemma find_fresh_app (issue_id : string) (db : table) (row : Issue) :
  ~ In issue_id (map id db) ->
  find (fun r => String.eqb (id r) issue_id) (db ++ [row])%list
  = find (fun r => String.eqb (id r) issue_id) [row].
Proof.
  intros Hfresh. induction db as [|r db IH]; [reflexivity|].
  change ((r :: db) ++ [row])%list with (r :: (db ++ [row]))%list.
  change (find ?f (r :: ?l)) with (if f r then Some r else find f l).
  cbv beta. destruct (String.eqb (id r) issue_id) eqn:He.
  - apply String.eqb_eq in He. exfalso. apply Hfresh. left. exact He.
  - apply IH. intros Hin. apply Hfresh. right. exact Hin.
Qed.

(** X6: the first vote for the id that [report_issue] has returned returns
    1, and changes the new row only. *)
Theorem report_then_vote (iter_order : list string) (now1 now2 : datetime)
    (title category location : string) (db db' : table) (issue_id : string) :
  report_issue iter_order now1 now2 title category location db = (Ok issue_id, db') ->
  vote_issue issue_id db'
  = (1, (db ++ [mkIssue issue_id title category location "open" 1 (isoformat now2)])%list).
Proof.
  intros H. apply report_issue_ok in H as (_ & _ & Hfresh & ->).
  unfold vote_issue.
  assert (Hu : sql_update_votes issue_id
                 (db ++ [mkIssue issue_id title category location "open" 0 (isoformat now2)])%list
               = (db ++ [mkIssue issue_id title category location "open" 1 (isoformat now2)])%list).
  { unfold sql_update_votes at 1. rewrite map_app.
    change (map _ db) with (sql_update_votes issue_id db).
    rewrite (update_votes_absent _ _ Hfresh). cbn [map id].
    rewrite String.eqb_refl. reflexivity. }
  rewrite Hu. f_equal.
  unfold sql_select_votes. rewrite (find_fresh_app _ _ _ Hfresh).
  cbn [find id]. rewrite String.eqb_refl. reflexivity.
Qed.

Lemma report_then_vote_witness :
  vote_issue "issue_1700000100.5"
    [pothole;
     mkIssue "issue_1700000100.5" "Broken swing" "community" "44.96,-93.21"
             "open" 0 "2023-11-14T16:15:00.500021"]
  = (1, [pothole;
         mkIssue "issue_1700000100.5" "Broken swing" "community" "44.96,-93.21"
                 "open" 1 "2023-11-14T16:15:00.500021"]).
Proof.
  apply (report_then_vote CATEGORIES quarter_past quarter_past_later
           "Broken swing" "community" "44.96,-93.21" [pothole]).
  reflexivity.
Defined.

(** X7: the row that [report_issue] has added is among the rows that
    [get_issues] returns, without a category and with its own category,
    whatever [sort_by] is. *)
Theorem report_then_listed (iter_order : list string) (now1 now2 : datetime)
    (title category location : string) (db db' : table) (issue_id sort_by : string) :
  report_issue iter_order now1 now2 title category location db = (Ok issue_id, db') ->
  let row := mkIssue issue_id title category location "open" 0 (isoformat now2) in
  In row (get_issues None sort_by db') /\
  In row (get_issues (Some category) sort_by db').
Proof.
  intros H row. apply report_issue_ok in H as (Hc & _ & _ & ->).
  fold row.
  assert (Hin : In row (db ++ [row])%list) by (apply in_or_app; right; now left).
  split.
  - apply (Permutation_in row (Permutation_sym (get_issues_perm None sort_by _))). exact Hin.
  - apply (Permutation_in row (Permutation_sym (get_issues_perm (Some category) sort_by _))).
    destruct (String.eqb category "") eqn:He; [exact Hin|].
    unfold sql_where_category. apply filter_In. split; [exact Hin|].
    apply String.eqb_refl.
Qed.

Lemma report_then_listed_witness :
  let row := mkIssue "issue_1700000100.5" "Broken swing" "community" "44.96,-93.21"
                     "open" 0 "2023-11-14T16:15:00.500021" in
  In row (get_issues None "votes" [pothole; row]) /\
  In row (get_issues (Some "community") "votes" [pothole; row]).
Proof.
  apply (report_then_listed CATEGORIES quarter_past quarter_past_later
           "Broken swing" "community" "44.96,-93.21" [pothole]).
  reflexivity.
Defined.

Lemma report_issue_duplicate_id_witness :
  report_issue CATEGORIES (mkDatetime "1700000000.25" "2023-11-14T16:13:20.250000")
    (mkDatetime "1700000000.250009" "2023-11-14T16:13:20.250009")
    "Pothole again" "transit" "44.97,-93.26" [pothole; streetlight]
  = (Raise (IntegrityError "UNIQUE constraint failed: issues.id"), [pothole; streetlight]).
Proof.
  apply (report_issue_duplicate_id CATEGORIES
           (mkDatetime "1700000000.25" "2023-11-14T16:13:20.250000")
           (mkDatetime "1700000000.250009" "2023-11-14T16:13:20.250009")
           "Pothole again" "transit" "44.97,-93.26" [pothole; streetlight]).
  - unfold CATEGORIES. cbn [In]. tauto.
  - cbn [map id pothole streetlight timestamp In]. left. reflexivity.
Defined.

(** ** Statistics after a call *)

Lemma where_category_snoc (c : string) (db : table) (row : Issue) :
  sql_count (sql_where_category c (db ++ [row])%list)
  = sql_count (sql_where_category c db) + (if String.eqb (category row) c then 1 else 0).
Proof.
  unfold sql_count, sql_where_category. rewrite filter_app, length_app.
  cbn [filter]. destruct (String.eqb (category row) c); cbn [List.length]; lia.
Qed.

Lemma where_category_update (c issue_id : string) (db : table) :
  sql_count (sql_where_category c (sql_update_votes issue_id db))
  = sql_count (sql_where_category c db).
Proof.
  unfold sql_count, sql_where_category, sql_update_votes. f_equal.
  induction db as [|r db IH]; [reflexivity|]. cbn [map filter].
  assert (Hc : category (if String.eqb (id r) issue_id then set_votes r (votes r + 1) else r)
               = category r)
    by now destruct (String.eqb (id r) issue_id).
  rewrite Hc. destruct (String.eqb (category r) c); cbn [List.length]; now rewrite IH.
Qed.

Lemma by_category_get (iter_order : list string) (db : table) (c : string) :
  dict_get c (by_category (get_stats iter_order db))
  = if in_dec String.string_dec c iter_order
    then Some (sql_count (sql_where_category c db)) else None.
Proof.
  unfold get_stats. cbn [by_category].
  exact (by_category_loop (fun cat => sql_count (sql_where_category cat db)) iter_order [] c).
Qed.

Lemma fold_left_dict_set_ext (f g : string -> Z) (order : list string) (d : dict Z) :
  (forall c, f c = g c) ->
  fold_left (fun d cat => dict_set d cat (f cat)) order d
  = fold_left (fun d cat => dict_set d cat (g cat)) order d.
Proof.
  intros H. revert d. induction order as [|c order IH]; intros d; [reflexivity|].
  cbn [fold_left]. rewrite H. apply IH.
Qed.

(** X8: after a report that went through, [get_stats] counts one issue
    more, one more in the category of the report, and as many as before in
    every other category. *)
Theorem report_then_stats (iter_order : list string) (now1 now2 : datetime)
    (title category location : string) (db db' : table) (issue_id : string) :
  report_issue iter_order now1 now2 title category location db = (Ok issue_id, db') ->
  total_issues (get_stats iter_order db') = total_issues (get_stats iter_order db) + 1 /\
  forall c,
    dict_get c (by_category (get_stats iter_order db'))
    = option_map (fun n => if String.eqb category c then n + 1 else n)
        (dict_get c (by_category (get_stats iter_order db))).
Proof.
  intros H. apply report_issue_ok in H as (_ & _ & _ & ->). split.
  - unfold get_stats. cbn [total_issues]. unfold sql_count. rewrite length_app.
    cbn [List.length]. lia.
  - intros c. rewrite !by_category_get.
    destruct (in_dec String.string_dec c iter_order); [|reflexivity].
    cbn [option_map]. rewrite where_category_snoc.
    match goal with |- context [String.eqb ?x c] => change x with category end.
    f_equal. destruct (String.eqb category c); lia.
Qed.

Lemma report_then_stats_witness :
  let db' := [pothole;
              mkIssue "issue_1700000100.5" "Broken swing" "community" "44.96,-93.21"
                      "open" 0 "2023-11-14T16:15:00.500021"] in
  total_issues (get_stats CATEGORIES db') = total_issues (get_stats CATEGORIES [pothole]) + 1 /\
  forall c,
    dict_get c (by_category (get_stats CATEGORIES db'))
    = option_map (fun n => if String.eqb "community" c then n + 1 else n)
        (dict_get c (by_category (get_stats CATEGORIES [pothole]))).
Proof.
  apply (report_then_stats CATEGORIES quarter_past quarter_past_later
           "Broken swing" "community" "44.96,-93.21" [pothole] _ "issue_1700000100.5").
  reflexivity.
Defined.

(** X9: a vote changes neither the number of issues nor the number of
    issues of any category that [get_stats] reports. *)
Theorem vote_issue_keeps_counts (iter_order : list string) (issue_id : string) (db : table) :
  total_issues (get_stats iter_order (snd (vote_issue issue_id db)))
  = total_issues (get_stats iter_order db) /\
  by_category (get_stats iter_order (snd (vote_issue issue_id db)))
  = by_category (get_stats iter_order db).
Proof.
  unfold vote_issue. cbn [snd]. unfold get_stats. cbn [total_issues by_category]. split.
  - unfold sql_count, sql_update_votes. now rewrite length_map.
  - apply fold_left_dict_set_ext. intros c. apply where_category_update.
Qed.

(** ** Invariants of the table *)

Lemma run_invariant (P : table -> Prop) (iter_order : list string) :
  P [] ->
  (forall c db, P db -> P (table_after iter_order c db)) ->
  forall calls, P (run iter_order calls).
Proof.
  intros H0 Hstep calls. unfold run. revert H0. generalize (@nil Issue).
  induction calls as [|c calls IH]; intros db H; cbn [fold_left]; [exact H|].
  apply IH. now apply Hstep.
Qed.

Lemma table_after_reported_rows (iter_order : list string) (c : call) (db : table) :
  Forall reported_row db -> Forall reported_row (table_after iter_order c db).
Proof.
  intros H. destruct c as [now1 now2 t c l|i| | |]; cbn [table_after]; try exact H.
  - unfold report_issue.
    destruct (in_CATEGORIES_spec c) as [Hc|Hn]; unfold negb; [|exact H].
    unfold sql_insert. destruct (existsb _ db); [exact H|]. cbn [snd].
    apply Forall_app. split; [exact H|]. constructor; [|constructor].
    unfold reported_row, Issue_new. cbn [category status id].
    split; [exact Hc|]. split; [reflexivity|]. now exists (timestamp now1).
  - unfold vote_issue. cbn [snd]. unfold sql_update_votes.
    apply Forall_map. apply (Forall_impl _ (P := reported_row)); [|exact H].
    intros r Hr. now destruct (String.eqb (id r) i).
Qed.

(** X10: every row of a table that a sequence of calls reaches from the
    empty table has one of the five categories, the status ["open"] and an
    id that starts with ["issue_"]: no call stores another category, and no
    call changes a status. *)
Theorem run_rows_reported (iter_order : list string) (calls : list call) :
  Forall reported_row (run iter_order calls).
Proof.
  apply (run_invariant (Forall reported_row)).
  - constructor.
  - apply table_after_reported_rows.
Qed.

Lemma same_but_votes_refl (r : Issue) : same_but_votes r r.
Proof. unfold same_but_votes. tauto. Qed.

Lemma Forall2_same_refl (db : table) : Forall2 same_but_votes db db.
Proof. induction db; constructor; [apply same_but_votes_refl | assumption]. Qed.

(** X11: every call leaves the rows of the table in their places, with
    their id, title, category, location, status and [created_at]: the table
    after the call starts with the rows it had, changed in their votes at
    most. *)
Theorem table_after_keeps_rows (iter_order : list string) (c : call) (db : table) :
  Forall2 same_but_votes db (firstn (List.length db) (table_after iter_order c db)).
Proof.
  assert (Hsame : Forall2 same_but_votes db (firstn (List.length db) db)).
  { rewrite firstn_all. apply Forall2_same_refl. }
  destruct c as [now1 now2 t c l|i| | |]; cbn [table_after]; try exact Hsame.
  - unfold report_issue. destruct (negb (in_CATEGORIES c)); [exact Hsame|].
    unfold sql_insert. destruct (existsb _ db); [exact Hsame|].
    cbn [snd]. rewrite firstn_app, Nat.sub_diag, firstn_all. cbn [firstn].
    rewrite List.app_nil_r. apply Forall2_same_refl.
  - unfold vote_issue. cbn [snd].
    assert (Hl : List.length (sql_update_votes i db) = List.length db)
      by (unfold sql_update_votes; apply length_map).
    rewrite <- Hl. rewrite firstn_all. unfold sql_update_votes.
    clear. induction db as [|r db IH]; cbn [map]; constructor; [|exact IH].
    destruct (String.eqb (id r) i); [|apply same_but_votes_refl].
    unfold same_but_votes. cbn. tauto.
Qed.

(** ** The counts of the categories *)

Lemma fold_left_dict_set_fresh (f : string -> Z) (order : list string) (d : dict Z) :
  NoDup order ->
  (forall c, In c order -> ~ In c (map fst d)) ->
  fold_left (fun d cat => dict_set d cat (f cat)) order d
  = (d ++ map (fun c => (c, f c)) order)%list.
Proof.
  revert d. induction order as [|c order IH]; intros d Hnd Hfresh.
  - cbn [fold_left map]. now rewrite List.app_nil_r.
  - cbn [fold_left map]. inversion Hnd as [|c' l' Hc Hnd']. subst c' l'.
    rewrite dict_set_fresh.
    + rewrite IH; [now rewrite <- List.app_assoc | exact Hnd' |].
      intros c' Hin. rewrite map_app, in_app_iff. cbn [map fst In].
      intros [H|[H|[]]].
      * exact (Hfresh c' (or_intror Hin) H).
      * subst c'. exact (Hc Hin).
    + destruct (existsb (String.eqb c) (map fst d)) eqn:He; [|reflexivity].
      apply existsb_exists in He as [k [Hk He]]. apply String.eqb_eq in He. subst k.
      exfalso. exact (Hfresh c (or_introl eq_refl) Hk).
Qed.

Lemma sum_permutation (l l' : list Z) :
  Permutation l l' -> fold_right Z.add 0 l = fold_right Z.add 0 l'.
Proof.
  induction 1; cbn [fold_right]; lia.
Qed.

Lemma NoDup_CATEGORIES : NoDup CATEGORIES.
Proof.
  unfold CATEGORIES.
  repeat (constructor; [cbn [In]; intros H; repeat destruct H as [H|H]; discriminate H || exact H|]).
  constructor.
Qed.

Lemma length_if_cons (b : bool) (r : Issue) (l : list Issue) :
  Z.of_nat (List.length (if b then r :: l else l)) = (if b then 1 else 0) + Z.of_nat (List.length l).
Proof. destruct b; cbn [List.length]; lia. Qed.

Lemma categories_partition (db : table) :
  Forall (fun r => In (category r) CATEGORIES) db ->
  fold_right Z.add 0 (map (fun c => sql_count (sql_where_category c db)) CATEGORIES)
  = sql_count db.
Proof.
  unfold sql_count, sql_where_category.
  induction 1 as [|r db Hr Hdb IH]; [reflexivity|].
  unfold CATEGORIES in *. cbn [map fold_right filter] in *.
  rewrite !length_if_cons.
  replace (Z.of_nat (List.length (r :: db))) with (1 + Z.of_nat (List.length db))
    by (cbn [List.length]; lia).
  rewrite <- IH. clear IH Hdb.
  generalize (Z.of_nat (List.length (filter (fun r => String.eqb (category r) "infrastructure") db))).
  generalize (Z.of_nat (List.length (filter (fun r => String.eqb (category r) "safety") db))).
  generalize (Z.of_nat (List.length (filter (fun r => String.eqb (category r) "environment") db))).
  generalize (Z.of_nat (List.length (filter (fun r => String.eqb (category r) "community") db))).
  generalize (Z.of_nat (List.length (filter (fun r => String.eqb (category r) "transit") db))).
  intros n1 n2 n3 n4 n5.
  cbn [In] in Hr.
  destruct Hr as [Hr|[Hr|[Hr|[Hr|[Hr|[]]]]]]; rewrite <- Hr;
    repeat match goal with
           | |- context [String.eqb ?a ?b] =>
               let v := eval vm_compute in (String.eqb a b) in
               change (String.eqb a b) with v
           end; cbv iota; lia.
Qed.

(** X12: in a table that a sequence of calls reaches from the empty table,
    the counts of [by_category] add up to [total_issues] (the categories
    are iterated in any order). *)
Theorem by_category_sums_to_total (iter_order : list string) (calls : list call) :
  Permutation iter_order CATEGORIES ->
  dict_sum (by_category (get_stats iter_order (run iter_order calls)))
  = total_issues (get_stats iter_order (run iter_order calls)).
Proof.
  intros Hperm.
  assert (Hrows : Forall (fun r => In (category r) CATEGORIES) (run iter_order calls)).
  { apply (Forall_impl _ (P := reported_row)); [now intros r [H _]|].
    apply (run_invariant (Forall reported_row));
      [constructor | apply table_after_reported_rows]. }
  generalize dependent (run iter_order calls). intros db Hrows.
  unfold get_stats. cbn [by_category total_issues].
  rewrite fold_left_dict_set_fresh.
  - rewrite List.app_nil_l. unfold dict_sum. rewrite map_map. cbn [snd].
    rewrite <- (categories_partition db Hrows).
    apply sum_permutation. apply Permutation_map. exact Hperm.
  - apply (Permutation_NoDup (Permutation_sym Hperm)). apply NoDup_CATEGORIES.
  - intros c _ [].
Qed.

Lemma by_category_sums_to_total_witness :
  let order := ["transit"; "safety"; "community"; "infrastructure"; "environment"] in
  let calls :=
    [Report quarter_past quarter_past_later "Broken swing" "community" "44.96,-93.21";
     Report quarter_past quarter_past_later "Broken swing" "community" "44.96,-93.21";
     Report (mkDatetime "1700000200.75" "2023-11-14T16:16:40.750000")
            (mkDatetime "1700000200.75" "2023-11-14T16:16:40.750008")
            "Loud music" "noise" "44.95,-93.20";
     Report (mkDatetime "1700000300.0" "2023-11-14T16:18:20")
            (mkDatetime "1700000300.000004" "2023-11-14T16:18:20.000004")
            "Bus shelter glass" "transit" "44.94,-93.19";
     Vote "issue_1700000300.0"] in
  total_issues (get_stats order (run order calls)) = 2 /\
  dict_sum (by_category (get_stats order (run order calls)))
  = total_issues (get_stats order (run order calls)).
Proof.
  split; [reflexivity|].
  apply (by_category_sums_to_total
           ["transit"; "safety"; "community"; "infrastructure"; "environment"]).
  unfold CATEGORIES.
  apply (perm_trans (l' := ["safety"; "transit"; "community"; "infrastructure"; "environment"]));
    [apply perm_swap|].
  apply (perm_trans (l' := ["safety"; "community"; "transit"; "infrastructure"; "environment"]));
    [apply perm_skip; apply perm_swap|].
  apply (perm_trans (l' := ["safety"; "community"; "infrastructure"; "transit"; "environment"]));
    [do 2 apply perm_skip; apply perm_swap|].
  apply (perm_trans (l' := ["safety"; "community"; "infrastructure"; "environment"; "transit"]));
    [do 3 apply perm_skip; apply perm_swap|].
  apply (perm_trans (l' := ["safety"; "infrastructure"; "community"; "environment"; "transit"]));
    [apply perm_skip; apply perm_swap|].
  apply (perm_trans (l' := ["infrastructure"; "safety"; "community"; "environment"; "transit"]));
    [apply perm_swap|].
  do 2 apply perm_skip. apply perm_swap.
Defined.

(** ** The average when nobody has voted *)

Lemma shiftr_pos (m n : Z) :
  0 < m -> 0 <= n -> n < Zdigits2 m -> 0 < Z.shiftr m n.
Proof.
  intros Hm Hn Hd. rewrite Z.shiftr_div_pow2 by exact Hn.
  pose proof (Zdigits2_bounds m Hm) as [Hlo _].
  assert (Hp : 2 ^ n <= 2 ^ (Zdigits2 m - 1)) by (apply Z.pow_le_mono_r; lia).
  apply Z.div_str_pos. split; [apply Z.pow_pos_nonneg; lia | lia].
Qed.

Lemma binary_round_aux_nonzero (sx : bool) (mx ex : Z) (lx : SpecFloat.location) :
  0 < mx ->
  ex <= fexp prec emax (Zdigits2 mx + ex) ->
  fexp prec emax (Zdigits2 mx + ex) < Zdigits2 mx + ex ->
  is_nonzero (binary_round_aux prec emax sx mx ex lx) = true.
Proof.
  intros Hmx Hex Hbig. unfold binary_round_aux, shr_fexp.
  set (n1 := fexp prec emax (Zdigits2 mx + ex) - ex).
  assert (Hn1 : 0 <= n1) by (unfold n1; lia).
  pose proof (shr_m_shiftr (shr_record_of_loc mx lx) ex n1) as Hs1.
  rewrite shr_record_of_loc_m in Hs1. specialize (Hs1 ltac:(lia) Hn1).
  destruct (shr (shr_record_of_loc mx lx) ex n1) as [mrs1 e1]. simpl in Hs1.
  destruct Hs1 as [Hm1 He1].
  set (m1 := shr_m mrs1) in *.
  assert (Hm1pos : 0 < m1).
  { rewrite Hm1. apply shiftr_pos; [exact Hmx | exact Hn1 | unfold n1; lia]. }
  set (m2 := round_nearest_even m1 (loc_of_shr_record mrs1)).
  assert (Hm2 : m2 = m1 \/ m2 = m1 + 1) by apply round_nearest_even_cases.
  set (n2 := fexp prec emax (Zdigits2 m2 + e1) - e1).
  assert (Hcan1 : fexp prec emax (Zdigits2 m1 + e1) = e1).
  { rewrite Hm1 in Hm1pos |- *. rewrite Zdigits2_shiftr by (assumption || lia).
    subst e1. replace (Zdigits2 mx - n1 + (ex + n1)) with (Zdigits2 mx + ex) by lia.
    unfold n1. lia. }
  assert (Hd12 : Zdigits2 m1 <= Zdigits2 m2).
  { destruct Hm2 as [->| ->]; [lia|].
    rewrite !Zdigits2_log2 by lia. pose proof (Z.log2_le_mono m1 (m1 + 1)). lia. }
  assert (Hd1 : 1 <= Zdigits2 m1) by (apply Zdigits2_pos; exact Hm1pos).
  assert (Hn2 : 0 <= n2 < Zdigits2 m2).
  { unfold n2. rewrite fexp_eq in *. lia. }
  pose proof (shr_m_shiftr (shr_record_of_loc m2 loc_Exact) e1 n2) as Hs2.
  rewrite shr_record_of_loc_m in Hs2.
  assert (Hm2pos : 0 < m2) by (destruct Hm2; lia).
  specialize (Hs2 ltac:(lia) ltac:(lia)).
  destruct (shr (shr_record_of_loc m2 loc_Exact) e1 n2) as [mrs2 e2]. simpl in Hs2.
  destruct Hs2 as [Hm3 He2].
  assert (Hm3pos : 0 < shr_m mrs2).
  { rewrite Hm3. apply shiftr_pos; lia. }
  destruct (shr_m mrs2) as [|m3|m3]; [lia | | lia].
  now destruct (e2 <=? emax - prec).
Qed.

(** The double nearest to a positive integer is neither a zero nor a NaN. *)
Lemma double_of_Z_nonzero (n : Z) : 0 < n -> is_nonzero (double_of_Z n) = true.
Proof.
  intros Hn. destruct n as [|p|p]; try lia. clear Hn.
  unfold double_of_Z, binary_normalize, binary_round, shl_align.
  change (Zpos (digits2_pos p)) with (Zdigits2 (Zpos p)).
  pose proof (Zdigits2_pos (Zpos p) ltac:(lia)) as Hd.
  destruct (fexp prec emax (Zdigits2 (Zpos p) + 0) - 0) as [|d|d] eqn:Hf.
  - apply binary_round_aux_nonzero; rewrite ?fexp_eq in *; lia.
  - apply binary_round_aux_nonzero; rewrite ?fexp_eq in *; lia.
  - rewrite Pos.iter_swap_gen with (f := Zpos) (h := Z.mul 2) by reflexivity.
    assert (Hit : Pos.iter (Z.mul 2) (Zpos p) d = Zpos p * 2 ^ Zpos d).
    { clear. induction d as [|d IH] using Pos.peano_ind.
      - simpl. lia.
      - rewrite Pos.iter_succ, IH, Pos2Z.inj_succ, Z.pow_succ_r by lia. lia. }
    rewrite Hit.
    assert (Hdig : Zdigits2 (Zpos p * 2 ^ Zpos d) = Zdigits2 (Zpos p) + Zpos d)
      by (apply Zdigits2_shiftl; lia).
    apply binary_round_aux_nonzero.
    + apply Z.mul_pos_pos; [lia | apply Z.pow_pos_nonneg; lia].
    + rewrite Hdig. rewrite !fexp_eq in *. lia.
    + rewrite Hdig. rewrite !fexp_eq in *. lia.
Qed.

Lemma sum_votes_zero (db : table) :
  Forall (fun r => votes r = 0) db -> fold_right Z.add 0 (map votes db) = 0.
Proof.
  induction 1 as [|r db Hr _ IH]; [reflexivity|]. cbn [map fold_right]. lia.
Qed.

(** X14: as long as no issue has a vote (and when there is no issue),
    [average_votes] is the integer [0], not a float: the average [0.0] is
    false, and [or 0] puts the integer in its place. *)
Theorem get_stats_no_votes (iter_order : list string) (db : table) :
  Forall (fun r => votes r = 0) db ->
  average_votes (get_stats iter_order db) = PyInt 0.
Proof.
  intros Hz. unfold get_stats. cbn [average_votes].
  destruct db as [|r db]; [reflexivity|].
  unfold sql_avg_votes. rewrite (sum_votes_zero _ Hz).
  pose proof (double_of_Z_nonzero (sql_count (r :: db))) as Hnz.
  assert (Hpos : 0 < sql_count (r :: db)) by (unfold sql_count; cbn [List.length]; lia).
  specialize (Hnz Hpos).
  change (double_of_Z 0) with (S754_zero false).
  destruct (double_of_Z (sql_count (r :: db))) as [s|s| |s m e]; try discriminate Hnz;
    reflexivity.
Qed.

Lemma get_stats_no_votes_witness :
  average_votes (get_stats CATEGORIES [streetlight; set_votes pothole 0]) = PyInt 0.
Proof.
  apply (get_stats_no_votes CATEGORIES [streetlight; set_votes pothole 0]).
  repeat constructor.
Defined.

(** ** The command line *)

Lemma length_spaces (n : nat) : String.length (spaces n) = n.
Proof. induction n as [|n IH]; cbn [spaces String.length]; [reflexivity | now rewrite IH]. Qed.

Lemma length_take (n : nat) (s : string) :
  String.length (take n s) = Nat.min n (String.length s).
Proof.
  revert s. induction n as [|n IH]; intros [|c s]; cbn [take String.length Nat.min];
    try reflexivity.
  now rewrite IH.
Qed.

Lemma length_format_s (width : nat) (s : string) :
  String.length (format_s width s) = Nat.max width (String.length s).
Proof. unfold format_s. rewrite length_append, length_spaces. lia. Qed.

Lemma length_format_d (width : nat) (n : Z) :
  String.length (format_d width n) = Nat.max width (String.length (int_repr n)).
Proof. unfold format_d. rewrite length_append, length_spaces. lia. Qed.

(** X15: in a line of the command [list] the title takes 40 columns,
    however long it is; the category takes 12 columns, or its length when
    that is more (["infrastructure"] has 14 characters), and the votes take
    3 columns or the length of the number. *)
Theorem issue_line_length (r : Issue) :
  String.length (issue_line r)
  = (55 + Nat.max 12 (String.length (category r))
        + Nat.max 3 (String.length (int_repr (votes r))))%nat /\
  String.length (format_s 40 (take 40 (title r))) = 40%nat.
Proof.
  assert (Ht : String.length (format_s 40 (take 40 (title r))) = 40%nat).
  { rewrite length_format_s, length_take. lia. }
  split; [|exact Ht].
  unfold issue_line. rewrite !length_append, Ht, length_format_s, length_format_d.
  change (String.length "  [") with 3%nat. change (String.length "] ") with 2%nat.
  change (String.length " | Votes: ") with 10%nat. lia.
Qed.

(** X16: a command that is none of [report], [list] and [stats], and
    [report] with fewer than three arguments behind it, make [main] print
    nothing and leave the table as [_init_db] has found or made it; there
    is no message. *)
Theorem main_ignores_command (iter_order : list string) (now1 now2 : datetime)
    (argv : list string) (file : database) :
  (2 <= List.length argv)%nat ->
  nth 1 argv "" <> "list" ->
  nth 1 argv "" <> "stats" ->
  nth 1 argv "" <> "report" \/ (List.length argv < 5)%nat ->
  main iter_order now1 now2 argv file = (Ok [], _init_db file).
Proof.
  intros Hlen Hl Hs Hr. unfold main.
  assert (H2 : (List.length argv <? 2)%nat = false) by (apply Nat.ltb_ge; exact Hlen).
  rewrite H2.
  apply String.eqb_neq in Hl. apply String.eqb_neq in Hs. rewrite Hl, Hs.
  assert (H5 : String.eqb (nth 1 argv "") "report" && (5 <=? List.length argv)%nat = false).
  { destruct Hr as [Hr|Hr].
    - apply String.eqb_neq in Hr. now rewrite Hr.
    - apply andb_false_iff. right. apply Nat.leb_gt. exact Hr. }
  now rewrite H5.
Qed.

Lemma main_ignores_command_witness :
  main CATEGORIES quarter_past quarter_past_later
    ["citizen_app.py"; "report"; "Broken swing"; "community"] (Some [pothole])
  = (Ok [], [pothole]) /\
  main CATEGORIES quarter_past quarter_past_later ["citizen_app.py"; "vote"; "issue_1700000000.25"]
    None
  = (Ok [], []).
Proof.
  split.
  - apply (main_ignores_command CATEGORIES quarter_past quarter_past_later
             ["citizen_app.py"; "report"; "Broken swing"; "community"] (Some [pothole])).
    + cbn [List.length]. lia.
    + intros H. discriminate H.
    + intros H. discriminate H.
    + right. cbn [List.length]. lia.
  - apply (main_ignores_command CATEGORIES quarter_past quarter_past_later
             ["citizen_app.py"; "vote"; "issue_1700000000.25"] None).
    + cbn [List.length]. lia.
    + intros H. discriminate H.
    + intros H. discriminate H.
    + left. intros H. discriminate H.
Defined.

(** X17: whatever the command line is, [main] keeps every row that the
    table has: the table it leaves is the table [_init_db] has found or
    made, or that table with one row behind it, a row with no votes and the
    status ["open"], which only the command [report] adds. *)
Theorem main_adds_one_row_at_most (iter_order : list string) (now1 now2 : datetime)
    (argv : list string) (file : database) :
  snd (main iter_order now1 now2 argv file) = _init_db file \/
  exists row,
    snd (main iter_order now1 now2 argv file) = (_init_db file ++ [row])%list /\
    votes row = 0 /\ status row = "open" /\ nth 1 argv "" = "report".
Proof.
  unfold main.
  destruct (List.length argv <? 2)%nat; [now left|].
  destruct (String.eqb (nth 1 argv "") "report") eqn:Hr; cbn [andb].
  - apply String.eqb_eq in Hr.
    destruct (5 <=? List.length argv)%nat.
    + destruct (report_issue iter_order now1 now2 (nth 2 argv "") (nth 3 argv "")
                  (nth 4 argv "") (_init_db file)) as [[issue_id|e] db'] eqn:Hrep.
      * apply report_issue_ok in Hrep as (_ & _ & _ & ->). right.
        eexists. cbn [snd]. split; [reflexivity|]. cbn [votes status]. auto.
      * left. cbn [snd]. unfold report_issue in Hrep.
        destruct (negb (in_CATEGORIES (nth 3 argv ""))); [now inversion Hrep|].
        destruct (sql_insert _ _); [discriminate Hrep | now inversion Hrep].
    + left. destruct (String.eqb (nth 1 argv "") "list"); [reflexivity|].
      now destruct (String.eqb (nth 1 argv "") "stats").
  - left. destruct (String.eqb (nth 1 argv "") "list"); [reflexivity|].
    now destruct (String.eqb (nth 1 argv "") "stats").
Qed.

(** X18: the command [report] with a category that is not one of the five
    ends [main] with the [ValueError] of [report_issue], before anything is
    printed, and with the table as it was. *)
Theorem main_report_invalid_category (iter_order : list string) (now1 now2 : datetime)
    (argv : list string) (file : database) :
  nth 1 argv "" = "report" ->
  (5 <= List.length argv)%nat ->
  ~ In (nth 3 argv "") CATEGORIES ->
  main iter_order now1 now2 argv file
  = (Raise (ValueError ("Invalid category. Must be one of: " ++ set_repr iter_order)),
     _init_db file).
Proof.
  intros Hr Hlen Hc. unfold main.
  assert (H2 : (List.length argv <? 2)%nat = false) by (apply Nat.ltb_ge; lia).
  rewrite H2, Hr. change (String.eqb "report" "report") with true.
  apply Nat.leb_le in Hlen. rewrite Hlen. cbn [andb].
  unfold report_issue.
  destruct (in_CATEGORIES_spec (nth 3 argv "")) as [Hin|_]; [tauto|]. reflexivity.
Qed.

Lemma main_report_invalid_category_witness :
  main CATEGORIES quarter_past quarter_past_later
    ["citizen_app.py"; "report"; "Loud music"; "noise"; "44.95,-93.20"] (Some [pothole])
  = (Raise (ValueError ("Invalid category. Must be one of: " ++ set_repr CATEGORIES)),
     [pothole]).
Proof.
  apply (main_report_invalid_category CATEGORIES quarter_past quarter_past_later
           ["citizen_app.py"; "report"; "Loud music"; "noise"; "44.95,-93.20"] (Some [pothole])).
  - reflexivity.
  - cbn [List.length]. lia.
  - unfold CATEGORIES. cbn [nth In]. intros H.
    repeat destruct H as [H|H]; discriminate H || exact H.
Defined.

Lemma nth_firstn (n k : nat) (l : list string) :
  (k < n)%nat -> nth k (firstn n l) "" = nth k l "".
Proof.
  revert k l. induction n as [|n IH]; intros k l Hk; [lia|].
  destruct l as [|x l]; [reflexivity|]. destruct k as [|k]; [reflexivity|].
  cbn [firstn nth]. apply IH. lia.
Qed.

(** X19: [main] reads the command and at most three arguments: what
    stands behind them on the command line changes nothing. *)
Theorem main_ignores_more_arguments (iter_order : list string) (now1 now2 : datetime)
    (argv : list string) (file : database) :
  main iter_order now1 now2 (firstn 5 argv) file = main iter_order now1 now2 argv file.
Proof.
  unfold main. rewrite !nth_firstn by lia. rewrite length_firstn.
  assert (H2 : (Nat.min 5 (List.length argv) <? 2)%nat = (List.length argv <? 2)%nat).
  { destruct (Nat.ltb_spec (List.length argv) 2); [apply Nat.ltb_lt | apply Nat.ltb_ge]; lia. }
  assert (H5 : (5 <=? Nat.min 5 (List.length argv))%nat = (5 <=? List.length argv)%nat).
  { destruct (Nat.leb_spec 5 (List.length argv)); [apply Nat.leb_le | apply Nat.leb_gt]; lia. }
  rewrite H2, H5. reflexivity.
Qed.

(** X20: the command [list] prints a heading and then one line for every
    row of the table, and leaves the table as it is. *)
Theorem main_list_lines (iter_order : list string) (now1 now2 : datetime)
    (argv : list string) (file : database) :
  (2 <= List.length argv)%nat ->
  nth 1 argv "" = "list" ->
  exists heading lines,
    main iter_order now1 now2 argv file = (Ok (Print heading :: lines), _init_db file) /\
    List.length lines = List.length (_init_db file) /\
    forall r, In r (_init_db file) -> In (Print (issue_line r)) lines.
Proof.
  intros Hlen Hl. unfold main.
  assert (H2 : (List.length argv <? 2)%nat = false) by (apply Nat.ltb_ge; exact Hlen).
  rewrite H2, Hl. change (String.eqb "list" "report") with false.
  change (String.eqb "list" "list") with true. cbn [andb].
  eexists. eexists. split; [reflexivity|].
  pose proof (get_issues_perm None "votes" (_init_db file)) as Hp. cbv iota in Hp.
  split.
  - rewrite length_map. exact (Permutation_length Hp).
  - intros r Hr. apply (in_map (fun issue => Print (issue_line issue))).
    exact (Permutation_in r (Permutation_sym Hp) Hr).
Qed.

Lemma main_list_lines_witness :
  exists heading lines,
    main CATEGORIES quarter_past quarter_past_later ["citizen_app.py"; "list"]
      (Some [streetlight; pothole])
    = (Ok (Print heading :: lines), [streetlight; pothole]) /\
    List.length lines = 2%nat /\
    forall r, In r [streetlight; pothole] -> In (Print (issue_line r)) lines.
Proof.
  apply (main_list_lines CATEGORIES quarter_past quarter_past_later
           ["citizen_app.py"; "list"] (Some [streetlight; pothole])).
  - cbn [List.length]. lia.
  - reflexivity.
Defined.

(** ** Votes in the whole table *)

(** X21: the table after two votes does not depend on their order. *)
Theorem vote_issue_commute (issue_id other : string) (db : table) :
  snd (vote_issue other (snd (vote_issue issue_id db)))
  = snd (vote_issue issue_id (snd (vote_issue other db))).
Proof.
  unfold vote_issue. cbn [snd]. unfold sql_update_votes. rewrite !map_map.
  apply map_ext. intros r.
  destruct (String.eqb (id r) issue_id) eqn:Hi; destruct (String.eqb (id r) other) eqn:Ho;
    cbn [set_votes id votes]; rewrite ?Hi, ?Ho; reflexivity.
Qed.

(** X22: in a table whose ids are distinct, as the primary key keeps them,
    a vote for an id of the table adds exactly one to the sum of all
    votes. *)
Theorem vote_issue_adds_one (issue_id : string) (db : table) :
  NoDup (map id db) ->
  In issue_id (map id db) ->
  fold_right Z.add 0 (map votes (snd (vote_issue issue_id db)))
  = fold_right Z.add 0 (map votes db) + 1.
Proof.
  intros Hnd Hin. unfold vote_issue. cbn [snd].
  induction db as [|r db IH]; [destruct Hin|].
  cbn [map] in Hnd. inversion Hnd as [|x l Hx Hnd']. subst x l.
  unfold sql_update_votes. cbn [map fold_right].
  fold (sql_update_votes issue_id db).
  destruct (String.eqb (id r) issue_id) eqn:Hi.
  - apply String.eqb_eq in Hi. rewrite update_votes_absent by (rewrite <- Hi; exact Hx).
    cbn [set_votes votes]. lia.
  - apply String.eqb_neq in Hi. destruct Hin as [Hin|Hin]; [contradiction|].
    rewrite (IH Hnd' Hin). lia.
Qed.

Lemma vote_issue_adds_one_witness :
  fold_right Z.add 0 (map votes (snd (vote_issue "issue_1700000100.5" [pothole; streetlight])))
  = fold_right Z.add 0 (map votes [pothole; streetlight]) + 1.
Proof.
  apply (vote_issue_adds_one "issue_1700000100.5" [pothole; streetlight]).
  - cbn [map id pothole streetlight].
    constructor; [|constructor; [|constructor]].
    + cbn [In]. intros [H|[]]. discriminate H.
    + intros [].
  - cbn [map id pothole streetlight In]. right. left. reflexivity.
Defined.

(** ** What the result of a vote tells *)



(** X25: the width 15 of the command [stats] is enough for each of the
    five categories: every category takes 15 columns there, so the
    counts stand in one column; the width 12 of the command [list] is not
    enough for ["infrastructure"] alone. *)
Theorem category_columns (c : string) :
  In c CATEGORIES ->
  String.length (format_s 15 c) = 15%nat /\
  (String.length (format_s 12 c) = 12%nat <-> c <> "infrastructure").
Proof.
  unfold CATEGORIES. cbn [In].
  intros [H|[H|[H|[H|[H|[]]]]]]; subst c; (split; [reflexivity|]).
  - split; [intros H; vm_compute in H; discriminate H | intros H; now contradiction H].
  - split; [intros _ H; discriminate H | reflexivity].
  - split; [intros _ H; discriminate H | reflexivity].
  - split; [intros _ H; discriminate H | reflexivity].
  - split; [intros _ H; discriminate H | reflexivity].
Qed.

Lemma category_columns_witness :
  String.length (format_s 15 "environment") = 15%nat /\
  (String.length (format_s 12 "environment") = 12%nat <-> "environment" <> "infrastructure").
Proof.
  apply (category_columns "environment").
  unfold CATEGORIES. cbn [In]. right. right. left. reflexivity.
Defined.
